(** * Weather Activity Advisor backend (backend/main.py): a shallow embedding

    The development follows the layout of the Python module: the decoded
    JSON values and the exceptions the code manipulates, the weather and
    speech gateways, the tool-calling orchestration loop
    [get_ai_suggestions], and the in-memory session store behind the API
    endpoints.  External collaborators (the chat-completion provider, the
    weather and speech providers, the [json], [uuid] and [str] built-ins)
    are fields of an [environment] record; every outbound call is indexed
    by the number of events observed so far, so a collaborator may answer
    the same request differently at different times. *)

From Stdlib Require Import String Ascii List ZArith Bool Lia.
From stdpp Require Import base option list gmap strings pretty.
From Equations Require Import Equations.

Set Warnings "-register-all".
Open Scope string_scope.
Open Scope list_scope.

(** ** Python values *)

(** What [response.json()] and [json.loads] build.  Python's [None] is
    [JNull]; a number literal without fraction or exponent is an [int],
    any other one is the decimal [m * 10^e] held as a [float]. *)
Inductive json : Type :=
| JNull
| JBool (b : bool)
| JInt (n : Z)
| JFloat (m e : Z)
| JStr (s : string)
| JArr (items : list json)
| JObj (fields : list (string * json)).

(** The exceptions the module raises or lets through.  [LibraryError]
    stands for whatever [requests], [groq] or [json] raise, with its text. *)
Inductive exn : Type :=
| HTTPException (status_code : Z) (detail : string)
| KeyError (key : string)
| TypeError (msg : string)
| AttributeError (msg : string)
| IndexError (msg : string)
| LibraryError (text : string).

Inductive result (A : Type) : Type :=
| Ok (a : A)
| Raise (e : exn).
Arguments Ok {A} a.
Arguments Raise {A} e.

#[export] Instance result_ret : MRet result := fun A a => Ok a.
#[export] Instance result_bind : MBind result :=
  fun A B f m => match m with Ok a => f a | Raise e => Raise e end.

Definition is_ok {A} (r : result A) : bool :=
  match r with Ok _ => true | Raise _ => false end.

(** [bool(v)] *)
Definition truthy (v : json) : bool :=
  match v with
  | JNull => false
  | JBool b => b
  | JInt n => negb (n =? 0)%Z
  | JFloat m _ => negb (m =? 0)%Z
  | JStr s => negb (String.eqb s "")
  | JArr items => match items with [] => false | _ => true end
  | JObj fields => match fields with [] => false | _ => true end
  end.

(** A dict is kept as its items; the first binding of a key is the one
    the dict holds. *)
Fixpoint dict_get (k : string) (fields : list (string * json)) : option json :=
  match fields with
  | [] => None
  | (k', v) :: rest => if String.eqb k k' then Some v else dict_get k rest
  end.

(** [v[k]] for a string key [k]. *)
Definition subscript (v : json) (k : string) : result json :=
  match v with
  | JObj fields =>
      match dict_get k fields with
      | Some x => Ok x
      | None => Raise (KeyError k)
      end
  | JArr _ => Raise (TypeError "list indices must be integers or slices, not str")
  | JStr _ => Raise (TypeError "string indices must be integers, not 'str'")
  | JNull => Raise (TypeError "'NoneType' object is not subscriptable")
  | JBool _ => Raise (TypeError "'bool' object is not subscriptable")
  | JInt _ => Raise (TypeError "'int' object is not subscriptable")
  | JFloat _ _ => Raise (TypeError "'float' object is not subscriptable")
  end.

(** [v.get(k)]: only a dict has the method. *)
Definition dot_get (v : json) (k : string) : result json :=
  match v with
  | JObj fields => Ok (default JNull (dict_get k fields))
  | _ => Raise (AttributeError "object has no attribute 'get'")
  end.

(** [s.lower()] on the ASCII letters, [needle in hay]. *)
Definition ascii_lower (c : ascii) : ascii :=
  let n := nat_of_ascii c in
  if (65 <=? n)%nat && (n <=? 90)%nat then ascii_of_nat (n + 32) else c.

Fixpoint lower (s : string) : string :=
  match s with
  | EmptyString => EmptyString
  | String c rest => String (ascii_lower c) (lower rest)
  end.

Fixpoint contains (needle hay : string) : bool :=
  if String.prefix needle hay then true
  else match hay with
       | EmptyString => false
       | String _ rest => contains needle rest
       end.

Definition nl : string := String (ascii_of_nat 10) EmptyString.

(** ** The conversation with the model provider *)

Record tool_call : Type := {
  tc_id : string;
  tc_name : string;          (* tool_call.function.name *)
  tc_arguments : string      (* tool_call.function.arguments *)
}.

(** [response.choices[i].message]; [tool_calls] is [None] when the
    attribute is missing or null. *)
Record message : Type := {
  content : option string;
  tool_calls : option (list tool_call)
}.

(** The entries of the running [messages] list. *)
Inductive chat_msg : Type :=
| RoleContent (role text : string)
| AssistantMessage (m : message)
| ToolResult (tool_call_id name text : string).

(** ** Observable events *)

Inductive event : Type :=
| EvCompletion (retry : bool) (messages : list chat_msg) (with_tools : bool)
    (answer : result (list message))
| EvFetch (url : string) (answer : result json)
| EvExtract (iteration : nat) (query language : string) (answer : option string)
| EvTranscribe (content_type language : string) (status : Z)
| EvUuid (value : string).

Definition trace : Type := list event.

(** ** External collaborators *)

Record environment : Type := {
  (* str() of a float, a list or a dict *)
  repr_value : json -> string;
  (* str() of an exception *)
  exn_str : exn -> string;
  (* == on decoded payloads *)
  py_eq : json -> json -> bool;
  json_loads : string -> result json;
  (* groq_client.chat.completions.create(...).choices, with or without tools *)
  chat_completions_create : nat -> list chat_msg -> bool -> result (list message);
  (* requests.get(url, timeout=10), raise_for_status(), .json() *)
  requests_get : nat -> string -> result json;
  (* requests.post to the speech provider with the content type and the
     language (the token header and the other parameters are constants):
     status code, text, .json() *)
  requests_post : nat -> string -> string -> list Byte.byte -> result (Z * string * result json);
  uuid4 : nat -> string;
  (* the regular-expression heuristic of the module, kept abstract: what
     is proved below holds for every function of the query and the
     language *)
  extract_location_from_query : string -> string -> option string;
  WEATHER_API_KEY : string
}.

(** [str(v)], as an f-string interpolates it. *)
Definition py_str (E : environment) (v : json) : string :=
  match v with
  | JStr s => s
  | JNull => "None"
  | JBool true => "True"
  | JBool false => "False"
  | JInt n => pretty n
  | _ => repr_value E v
  end.

(** [v[0]]: the first item of a list, the first character of a string. *)
Fixpoint utf8_continuation (s : string) : string :=
  match s with
  | String c rest =>
      let n := nat_of_ascii c in
      if (128 <=? n)%nat && (n <? 192)%nat then String c (utf8_continuation rest)
      else EmptyString
  | EmptyString => EmptyString
  end.

Definition subscript0 (v : json) : result json :=
  match v with
  | JArr (x :: _) => Ok x
  | JArr [] => Raise (IndexError "list index out of range")
  | JStr (String c rest) => Ok (JStr (String c (utf8_continuation rest)))
  | JStr EmptyString => Raise (IndexError "string index out of range")
  | JObj _ => Raise (KeyError "0")
  | JNull => Raise (TypeError "'NoneType' object is not subscriptable")
  | JBool _ => Raise (TypeError "'bool' object is not subscriptable")
  | JInt _ => Raise (TypeError "'int' object is not subscriptable")
  | JFloat _ _ => Raise (TypeError "'float' object is not subscriptable")
  end.

(** ** Weather gateway *)

(** The dict [format_weather_data] builds. *)
Record formatted_weather : Type := {
  fw_location : string;
  fw_temperature : string;
  fw_condition : json;
  fw_icon : json;
  fw_feels_like : string;
  fw_humidity : string;
  fw_wind : string;
  fw_precipitation : string;
  fw_uv_index : json;
  fw_visibility : string;
  fw_local_time : json;
  fw_raw_data : json
}.

Section Gateways.
Context (E : environment).

Definition weather_url (location : json) : string :=
  "http://api.weatherapi.com/v1/current.json?key=" +:+ WEATHER_API_KEY E
  +:+ "&q=" +:+ py_str E location +:+ "&aqi=yes".

Definition fetch_weather (tr : trace) (location : json) : result json * trace :=
  let url := weather_url location in
  let answer := requests_get E (List.length tr) url in
  let tr' := tr ++ [EvFetch url answer] in
  match answer with
  | Ok payload => (Ok payload, tr')
  | Raise e =>
      (Raise (HTTPException 400 ("Error fetching weather: " +:+ exn_str E e)), tr')
  end.

Definition format_weather_data (weather_data : json) : result (option formatted_weather) :=
  if negb (truthy weather_data) then Ok None
  else
    location ← subscript weather_data "location";
    current ← subscript weather_data "current";
    name ← subscript location "name";
    country ← subscript location "country";
    temp_c ← subscript current "temp_c";
    temp_f ← subscript current "temp_f";
    condition ← subscript current "condition";
    condition_text ← subscript condition "text";
    condition' ← subscript current "condition";
    condition_icon ← subscript condition' "icon";
    feelslike_c ← subscript current "feelslike_c";
    humidity ← subscript current "humidity";
    wind_kph ← subscript current "wind_kph";
    wind_dir ← subscript current "wind_dir";
    precip_mm ← subscript current "precip_mm";
    uv ← subscript current "uv";
    vis_km ← subscript current "vis_km";
    localtime ← subscript location "localtime";
    Ok (Some {|
      fw_location := py_str E name +:+ ", " +:+ py_str E country;
      fw_temperature := py_str E temp_c +:+ "°C / " +:+ py_str E temp_f +:+ "°F";
      fw_condition := condition_text;
      fw_icon := condition_icon;
      fw_feels_like := py_str E feelslike_c +:+ "°C";
      fw_humidity := py_str E humidity +:+ "%";
      fw_wind := py_str E wind_kph +:+ " km/h " +:+ py_str E wind_dir;
      fw_precipitation := py_str E precip_mm +:+ " mm";
      fw_uv_index := uv;
      fw_visibility := py_str E vis_km +:+ " km";
      fw_local_time := localtime;
      fw_raw_data := weather_data
    |}).

(** ** Speech gateway *)

Definition content_type_map : list (string * string) :=
  [ ("mp3", "audio/mpeg"); ("wav", "audio/wav"); ("flac", "audio/flac");
    ("m4a", "audio/mp4"); ("ogg", "audio/ogg"); ("opus", "audio/opus");
    ("webm", "audio/webm") ].

Fixpoint assoc_get {A} (k : string) (table : list (string * A)) : option A :=
  match table with
  | [] => None
  | (k', v) :: rest => if String.eqb k k' then Some v else assoc_get k rest
  end.

Definition deepgram_content_type (audio_format : option string) : string :=
  match audio_format with
  | Some f =>
      if String.eqb f "" then "audio/wav"
      else default "audio/wav" (assoc_get (lower f) content_type_map)
  | None => "audio/wav"
  end.

(** The body of the [try] block, after the request has come back. *)
Definition deepgram_response (status_code : Z) (text : string) (body : result json)
  : result json :=
  if (status_code =? 200)%Z then
    result ← body;
    results ← subscript result "results";
    channels ← subscript results "channels";
    channel ← subscript0 channels;
    alternatives ← subscript channel "alternatives";
    alternative ← subscript0 alternatives;
    transcript ← subscript alternative "transcript";
    Ok (if truthy transcript then transcript else JNull)
  else Raise (HTTPException status_code ("Deepgram API Error: " +:+ text)).

Definition transcribe_audio_deepgram (tr : trace) (audio_bytes : list Byte.byte)
    (audio_format : option string) (language : string) : result json * trace :=
  let content_type := deepgram_content_type audio_format in
  let response := requests_post E (List.length tr) content_type language audio_bytes in
  let tr' := tr ++ [EvTranscribe content_type language
                      (match response with Ok (status_code, _, _) => status_code | Raise _ => 0%Z end)] in
  let attempt :=
    match response with
    | Ok (status_code, text, body) => deepgram_response status_code text body
    | Raise e => Raise e
    end in
  match attempt with
  | Ok transcript => (Ok transcript, tr')
  | Raise e =>
      (Raise (HTTPException 500 ("Transcription error: " +:+ exn_str E e)), tr')
  end.

End Gateways.

(** ** Suggestion orchestrator *)

Definition dq : string := String (ascii_of_nat 34) EmptyString.

Definition system_prompt (language : string) : string :=
  if String.eqb language "ja" then
    "あなたは親切な天気アドバイザーです。現在の天気に基づいて、アクティビティ、外出、ファッション、音楽、スポーツなどの提案を提供します。" +:+ nl +:+
    "提案は具体的で、実用的で、天気条件に適切なものにしてください。" +:+ nl +:+
    nl +:+
    "重要な注意事項：" +:+ nl +:+
    "- ユーザーが質問の中で場所（都市名）を言及した場合、その場所の天気を自動的に取得するためにget_weatherツールを使用してください。" +:+ nl +:+
    "- セッションに既存の天気データがあっても、ユーザーが別の場所について尋ねている場合は、その場所の天気を取得してください。" +:+ nl +:+
    "- 例：「東京で今日何をすべきか？」と聞かれたら、東京の天気を取得してください。"
  else
    "You are a helpful weather advisor. Based on current weather conditions, you provide suggestions for activities, outings, fashion, music, sports, and more." +:+ nl +:+
    "Make your suggestions specific, practical, and appropriate for the weather conditions." +:+ nl +:+
    nl +:+
    "Important notes:" +:+ nl +:+
    "- If the user mentions a location (city name) in their query, automatically use the get_weather tool to fetch weather for that location." +:+ nl +:+
    "- Even if there's existing weather data in the session, if the user asks about a different location, fetch weather for that location." +:+ nl +:+
    "- Example: If asked " +:+ dq +:+ "What should I do today in Tokyo?" +:+ dq +:+ ", fetch weather for Tokyo.".


Definition max_iterations : nat := 3.

Definition max_iterations_content : string :=
  "Error: Maximum iterations reached while processing your request.".

(** The dict [get_ai_suggestions] returns. *)
Record suggestion : Type := {
  sg_content : option string;
  sg_weather_data : json
}.

(** The variables of the [while] loop that change from round to round,
    with the events observed so far. *)
Record loop_state : Type := {
  messages : list chat_msg;
  iteration : nat;
  final_weather_data : json;
  auto_fetch_weather : bool;
  events : trace
}.

(** How a block of statements ends: it falls through with a value, or an
    exception leaves it (the events observed until then are kept). *)
Inductive outcome (A : Type) : Type :=
| Done (a : A)
| Fail (e : exn) (tr : trace).
Arguments Done {A} a.
Arguments Fail {A} e tr.

(** How one pass through the loop body ends. *)
Inductive step : Type :=
| Continue (st : loop_state)
| Return (answer : suggestion) (tr : trace)
| Raised (e : exn) (tr : trace).

(** The loop state in which [get_ai_suggestions] enters the loop. *)
Definition entry_state (language prompt : string) (weather_data : json) (auto : bool)
    (tr : trace) : loop_state :=
  {| messages := [ RoleContent "system" (system_prompt language);
                   RoleContent "user" prompt ];
     iteration := 0;
     final_weather_data := weather_data;
     auto_fetch_weather := auto;
     events := tr |}.

(** Lines 447-451: the reply once the loop has used its rounds. *)
Definition max_iterations_reply (st : loop_state) : suggestion * trace :=
  ({| sg_content := Some max_iterations_content;
      sg_weather_data := final_weather_data st |}, events st).

Definition inspect {A : Type} (x : A) : {y : A | x = y} := exist _ x eq_refl.

Section Orchestrator.
Context (E : environment).

(** The f-string listing the conditions, after [loc] and [curr] are bound. *)
Definition weather_block (header : string) (loc curr : json) : result string :=
  name ← subscript loc "name";
  country ← subscript loc "country";
  temp_c ← subscript curr "temp_c";
  feelslike_c ← subscript curr "feelslike_c";
  condition ← subscript curr "condition";
  condition_text ← subscript condition "text";
  humidity ← subscript curr "humidity";
  wind_kph ← subscript curr "wind_kph";
  uv ← subscript curr "uv";
  precip_mm ← subscript curr "precip_mm";
  localtime ← subscript loc "localtime";
  Ok (nl +:+ header +:+ py_str E name +:+ ", " +:+ py_str E country +:+ ":" +:+ nl +:+
      "- Temperature: " +:+ py_str E temp_c +:+ "°C (feels like " +:+ py_str E feelslike_c +:+ "°C)" +:+ nl +:+
      "- Condition: " +:+ py_str E condition_text +:+ nl +:+
      "- Humidity: " +:+ py_str E humidity +:+ "%" +:+ nl +:+
      "- Wind: " +:+ py_str E wind_kph +:+ " km/h" +:+ nl +:+
      "- UV Index: " +:+ py_str E uv +:+ nl +:+
      "- Precipitation: " +:+ py_str E precip_mm +:+ " mm" +:+ nl +:+
      "- Local time: " +:+ py_str E localtime +:+ nl).

Definition describe_weather (header : string) (payload : json) : result string :=
  loc ← subscript payload "location";
  curr ← subscript payload "current";
  weather_block header loc curr.

Variables (weather_data : json) (user_query : option string) (language : string).

(** Lines 262-287: the weather context and the user prompt. *)
Definition generic_prompt (weather_context : string) : string :=
  if String.eqb language "ja" then
    weather_context +:+ nl +:+ nl +:+ "この天気に基づいて、今日のアクティビティ、服装、外出のアイデアを提案してください。"
  else
    weather_context +:+ nl +:+ nl +:+ "Based on this weather, suggest activities, outfit ideas, and outing recommendations for today.".

Definition query_prompt (weather_context q : string) : string :=
  if String.eqb language "ja" then
    weather_context +:+ nl +:+ nl +:+ "ユーザーの質問: " +:+ q +:+ nl +:+ nl +:+
    "上記の天気を考慮して、詳細な提案を提供してください。質問に場所が含まれている場合は、その場所の天気を取得してください。"
  else
    weather_context +:+ nl +:+ nl +:+ "User query: " +:+ q +:+ nl +:+ nl +:+
    "Provide detailed suggestions considering the weather above. If the query mentions a location, fetch weather for that location.".

Definition build_prompt : result string :=
  weather_context ←
    (if truthy weather_data then describe_weather "Current weather in " weather_data
     else Ok "");
  Ok (match user_query with
      | Some q => if negb (String.eqb q "") then query_prompt weather_context q
                  else generic_prompt weather_context
      | None => generic_prompt weather_context
      end).

(** Lines 301-330: the request to the provider, retried without the tool
    when the failure text mentions tools or functions. *)
Definition create_completion (st : loop_state) : result (list message) * bool * trace :=
  let first := chat_completions_create E (List.length (events st)) (messages st)
                 (auto_fetch_weather st) in
  let tr1 := events st ++ [EvCompletion false (messages st) (auto_fetch_weather st) first] in
  match first with
  | Ok response => (Ok response, auto_fetch_weather st, tr1)
  | Raise tool_error =>
      if contains "tool" (lower (exn_str E tool_error))
         || contains "function" (lower (exn_str E tool_error)) then
        let second := chat_completions_create E (List.length tr1) (messages st) false in
        let tr2 := tr1 ++ [EvCompletion true (messages st) false second] in
        match second with
        | Ok response => (Ok response, false, tr2)
        | Raise e => (Raise e, auto_fetch_weather st, tr2)
        end
      else (Raise tool_error, auto_fetch_weather st, tr1)
  end.

Definition tool_error_text (location_name : json) (e : exn) : string :=
  "Error fetching weather for " +:+ py_str E location_name +:+ ": " +:+ exn_str E e.

(** Lines 341-379: one tool call of the assistant's message. *)
Definition dispatch_tool_call (st : loop_state) (tc : tool_call) : outcome loop_state :=
  if String.eqb (tc_name tc) "get_weather" then
    match json_loads E (tc_arguments tc) with
    | Raise e => Fail e (events st)
    | Ok args =>
        match dot_get args "location" with
        | Raise e => Fail e (events st)
        | Ok location_name =>
            let '(fetched, tr) := fetch_weather E (events st) location_name in
            match fetched with
            | Ok fetched_weather =>
                let tool_text :=
                  match describe_weather "Weather in " fetched_weather with
                  | Ok weather_info => weather_info
                  | Raise e => tool_error_text location_name e
                  end in
                Done {| messages := messages st ++ [ToolResult (tc_id tc) (tc_name tc) tool_text];
                        iteration := iteration st;
                        final_weather_data := fetched_weather;
                        auto_fetch_weather := auto_fetch_weather st;
                        events := tr |}
            | Raise e =>
                Done {| messages := messages st ++
                          [ToolResult (tc_id tc) (tc_name tc) (tool_error_text location_name e)];
                        iteration := iteration st;
                        final_weather_data := final_weather_data st;
                        auto_fetch_weather := auto_fetch_weather st;
                        events := tr |}
            end
        end
    end
  else Done st.

(** Line 340: [for tool_call in message.tool_calls]. *)
Fixpoint dispatch_tool_calls (st : loop_state) (tcs : list tool_call) : outcome loop_state :=
  match tcs with
  | [] => Done st
  | tc :: rest =>
      match dispatch_tool_call st tc with
      | Done st' => dispatch_tool_calls st' rest
      | Fail e tr => Fail e tr
      end
  end.

(** [message.tool_calls] is present and not empty. *)
Definition requests_tools (m : message) : bool :=
  match tool_calls m with
  | Some (_ :: _) => true
  | _ => false
  end.

(** Lines 423-445: the final response. *)
Definition finalize (m : message) (final : json) (tr : trace) : step :=
  if truthy final && negb (py_eq E final weather_data) then
    match describe_weather "Current weather in " final with
    | Ok _ => Return {| sg_content := content m; sg_weather_data := final |} tr
    | Raise e => Raised e tr
    end
  else Return {| sg_content := content m; sg_weather_data := final |} tr.

Definition updated_prompt (weather_info q : string) : string :=
  if String.eqb language "ja" then
    weather_info +:+ nl +:+ nl +:+ "ユーザーの質問: " +:+ q +:+ nl +:+ nl +:+
    "上記の天気を考慮して、詳細な提案を提供してください。"
  else
    weather_info +:+ nl +:+ nl +:+ "User query: " +:+ q +:+ nl +:+ nl +:+
    "Provide detailed suggestions considering the weather above.".

(** Lines 385-421: the location extracted from the query, when the model
    asked for no tool. *)
Definition fallback (st : loop_state) (m : message) (auto : bool) (tr : trace) : step :=
  match user_query with
  | Some q =>
      if negb (String.eqb q "") && (negb (truthy weather_data) || (iteration st =? 0)%nat) then
        let extracted_location := extract_location_from_query E q language in
        let tr1 := tr ++ [EvExtract (iteration st) q language extracted_location] in
        match extracted_location with
        | Some place =>
            if negb (String.eqb place "") then
              let '(fetched, tr2) := fetch_weather E tr1 (JStr place) in
              match fetched with
              | Ok fetched_weather =>
                  match describe_weather "Weather in " fetched_weather with
                  | Ok weather_info =>
                      Continue {| messages := [ RoleContent "system" (system_prompt language);
                                                RoleContent "user" (updated_prompt weather_info q) ];
                                  iteration := iteration st + 1;
                                  final_weather_data := fetched_weather;
                                  auto_fetch_weather := auto;
                                  events := tr2 |}
                  | Raise _ => finalize m fetched_weather tr2
                  end
              | Raise _ => finalize m (final_weather_data st) tr2
              end
            else finalize m (final_weather_data st) tr1
        | None => finalize m (final_weather_data st) tr1
        end
      else finalize m (final_weather_data st) tr
  | None => finalize m (final_weather_data st) tr
  end.

(** Lines 332-445: what the loop does with the provider's answer. *)
Definition react (st : loop_state) (answer : result (list message)) (auto : bool)
    (tr : trace) : step :=
  match answer with
  | Raise e => Raised e tr
  | Ok [] => Raised (IndexError "list index out of range") tr
  | Ok (m :: _) =>
      if requests_tools m && auto then
        match dispatch_tool_calls
                {| messages := messages st ++ [AssistantMessage m];
                   iteration := iteration st;
                   final_weather_data := final_weather_data st;
                   auto_fetch_weather := auto;
                   events := tr |}
                (default [] (tool_calls m)) with
        | Done st' =>
            Continue {| messages := messages st';
                        iteration := iteration st + 1;
                        final_weather_data := final_weather_data st';
                        auto_fetch_weather := auto;
                        events := events st' |}
        | Fail e tr' => Raised e tr'
        end
      else if negb (requests_tools m) then fallback st m auto tr
      else finalize m (final_weather_data st) tr
  end.

(** Lines 301-445: one pass through the body of the [while] loop. *)
Definition loop_body (st : loop_state) : step :=
  let '(answer, auto, tr) := create_completion st in
  react st answer auto tr.

(** Lines 300-451: [while iteration < max_iterations], then the return
    that follows the loop. *)
Equations? while_loop (st : loop_state) : outcome (suggestion * trace)
  by wf (max_iterations - iteration st) lt :=
while_loop st with inspect (iteration st <? max_iterations)%nat := {
  | exist _ false _ => Done (max_iterations_reply st)
  | exist _ true Hlt with inspect (loop_body st) := {
      | exist _ (Continue st') Hbody => while_loop st'
      | exist _ (Return answer tr) _ => Done (answer, tr)
      | exist _ (Raised e tr) _ => Fail e tr } }.
Proof.
  apply Nat.ltb_lt in Hlt.
  assert (iteration st' = iteration st + 1)%nat as ->; [|lia].
  revert Hbody. unfold loop_body, react, fallback, finalize.
  destruct (create_completion st) as [[answer auto] tr].
  repeat case_match; intros [= <-]; reflexivity.
Qed.

(** Lines 219-457.  The prompt is built before the [try]; whatever the
    loop raises is turned into a reply by the handler at the end. *)
Definition get_ai_suggestions (tr : trace) (auto : bool) : result suggestion * trace :=
  match build_prompt with
  | Raise e => (Raise e, tr)
  | Ok prompt =>
      match while_loop (entry_state language prompt weather_data auto tr) with
      | Done (answer, tr') => (Ok answer, tr')
      | Fail e tr' =>
          (Ok {| sg_content := Some ("Error getting AI suggestions: " +:+ exn_str E e);
                 sg_weather_data := weather_data |}, tr')
      end
  end.

End Orchestrator.

(** ** Session store and API endpoints *)

(** One entry of a session's [chat_history]. *)
Record chat_turn : Type := {
  turn_role : string;
  turn_content : option string
}.

(** A session dict.  [ss_chat_history] is [None] when the key is missing,
    [ss_formatted_weather] when no suggestion call has stored it yet. *)
Record session : Type := {
  ss_weather_data : json;
  ss_chat_history : option (list chat_turn);
  ss_language : string;
  ss_formatted_weather : option (option formatted_weather)
}.

(** The module-level [sessions] dict, with the events observed so far. *)
Record server : Type := {
  sessions : gmap string session;
  observed : trace
}.

Definition startup : server := {| sessions := ∅; observed := [] |}.

Definition translations : list (string * list (string * string)) :=
  [ ("en",
     [ ("title", "🌤️ Weather Activity Advisor");
       ("subtitle", "Get personalized activity suggestions based on real-time weather");
       ("location_input", "Enter your location (city name)");
       ("location_placeholder", "e.g., Tokyo, New York, London");
       ("get_weather", "Get Weather & Suggestions");
       ("voice_input", "🎤 Voice Input");
       ("chat_input", "Ask me anything about activities, fashion, or plans...");
       ("example_prompts", "Example Prompts:");
       ("weather_info", "Current Weather Information");
       ("suggestions", "AI Suggestions");
       ("chat_history", "Chat History");
       ("clear_chat", "Clear Chat");
       ("error", "Error");
       ("weather_fetch_error", "Could not fetch weather data. Please check the location.");
       ("language", "Language") ]);
    ("ja",
     [ ("title", "🌤️ 天気アクティビティアドバイザー");
       ("subtitle", "リアルタイムの天気に基づいてパーソナライズされたアクティビティ提案を取得");
       ("location_input", "場所を入力してください（都市名）");
       ("location_placeholder", "例：東京、大阪、札幌");
       ("get_weather", "天気と提案を取得");
       ("voice_input", "🎤 音声入力");
       ("chat_input", "アクティビティ、ファッション、プランについて何でも聞いてください...");
       ("example_prompts", "例のプロンプト：");
       ("weather_info", "現在の気象情報");
       ("suggestions", "AI提案");
       ("chat_history", "チャット履歴");
       ("clear_chat", "チャットをクリア");
       ("error", "エラー");
       ("weather_fetch_error", "天気データを取得できませんでした。場所を確認してください。");
       ("language", "言語") ]) ].

(** What the suggestion endpoint answers. *)
Record suggestions_response : Type := {
  rs_suggestion : option string;
  rs_chat_history : list chat_turn;
  rs_weather : option (option formatted_weather);
  rs_weather_updated : bool
}.

(** What the weather-with-suggestions endpoint answers. *)
Record weather_response : Type := {
  rw_session_id : string;
  rw_weather : option formatted_weather;
  rw_suggestion : option string
}.

Section Endpoints.
Context (E : environment).

(** GET /api/translations/{language} *)
Definition get_translations (sv : server) (language : string)
  : result (list (string * string)) * server :=
  match assoc_get language translations with
  | None => (Raise (HTTPException 400 "Language not supported"), sv)
  | Some table => (Ok table, sv)
  end.

(** GET /api/examples/{language} *)
Definition get_examples (sv : server) (language : string) : result (list string) * server :=
  if String.eqb language "ja" then
    (Ok [ "今日は何を着ればいいですか？";
          "外出するのに良い時間は？";
          "雨が降るので、室内でできることは？";
          "この天気でおすすめのスポーツは？" ], sv)
  else
    (Ok [ "What should I wear today?";
          "Best time to go outside?";
          "Indoor activities for this weather?";
          "Recommended sports for this weather?" ], sv).

(** POST /api/weather *)
Definition get_weather (sv : server) (location : string)
  : result (option formatted_weather) * server :=
  let '(fetched, tr) := fetch_weather E (observed sv) (JStr location) in
  let sv' := {| sessions := sessions sv; observed := tr |} in
  match fetched with
  | Ok weather_data => (format_weather_data E weather_data, sv')
  | Raise e => (Raise e, sv')
  end.

(** Lines 507-517: the exchange appended to the session's history. *)
Definition record_exchange (s : session) (query : string) (suggestion : option string) : session :=
  {| ss_weather_data := ss_weather_data s;
     ss_chat_history :=
       Some (default [] (ss_chat_history s)
             ++ [ {| turn_role := "user"; turn_content := Some query |} ]
             ++ [ {| turn_role := "assistant"; turn_content := suggestion |} ]);
     ss_language := ss_language s;
     ss_formatted_weather := ss_formatted_weather s |}.

(** POST /api/suggestions *)
Definition get_suggestions (sv : server) (session_id query language : string)
  : result suggestions_response * server :=
  match sessions sv !! session_id with
  | None =>
      (Raise (HTTPException 404 "Session not found. Please fetch weather first."), sv)
  | Some s =>
      let weather_data := ss_weather_data s in
      let '(answer, tr) :=
        get_ai_suggestions E weather_data (Some query) language (observed sv) true in
      match answer with
      | Raise e => (Raise e, {| sessions := sessions sv; observed := tr |})
      | Ok res =>
          let changed := truthy (sg_weather_data res)
                         && negb (py_eq E (sg_weather_data res) weather_data) in
          let stored :=
            if changed then
              formatted ← format_weather_data E (sg_weather_data res);
              Ok {| ss_weather_data := sg_weather_data res;
                    ss_chat_history := ss_chat_history s;
                    ss_language := ss_language s;
                    ss_formatted_weather := Some formatted |}
            else Ok s in
          match stored with
          | Raise e =>
              (* session['weather_data'] is already assigned when the
                 formatting on the next line raises *)
              (Raise e,
               {| sessions := <[session_id :=
                                  {| ss_weather_data := sg_weather_data res;
                                     ss_chat_history := ss_chat_history s;
                                     ss_language := ss_language s;
                                     ss_formatted_weather := ss_formatted_weather s |}]>
                                (sessions sv);
                  observed := tr |})
          | Ok s1 =>
              let suggestion := sg_content res in
              let s2 := if negb (String.eqb query "") then record_exchange s1 query suggestion
                        else s1 in
              let sv' := {| sessions := <[session_id := s2]> (sessions sv); observed := tr |} in
              if changed then
                match format_weather_data E (sg_weather_data res) with
                | Ok formatted =>
                    (Ok {| rs_suggestion := suggestion;
                           rs_chat_history := default [] (ss_chat_history s2);
                           rs_weather := Some formatted;
                           rs_weather_updated := true |}, sv')
                | Raise e => (Raise e, sv')
                end
              else
                (Ok {| rs_suggestion := suggestion;
                       rs_chat_history := default [] (ss_chat_history s2);
                       rs_weather := None;
                       rs_weather_updated := false |}, sv')
          end
      end
  end.

(** POST /api/weather-with-suggestions *)
Definition get_weather_with_suggestions (sv : server) (location language : string)
    (session_id : option string) : result weather_response * server :=
  let '(fetched, tr1) := fetch_weather E (observed sv) (JStr location) in
  match fetched with
  | Raise e => (Raise e, {| sessions := sessions sv; observed := tr1 |})
  | Ok weather_data =>
      match format_weather_data E weather_data with
      | Raise e => (Raise e, {| sessions := sessions sv; observed := tr1 |})
      | Ok formatted =>
          let '(sid, tr2) :=
            match session_id with
            | Some given =>
                if negb (String.eqb given "") then (given, tr1)
                else (uuid4 E (List.length tr1), tr1 ++ [EvUuid (uuid4 E (List.length tr1))])
            | None => (uuid4 E (List.length tr1), tr1 ++ [EvUuid (uuid4 E (List.length tr1))])
            end in
          let store := <[sid := {| ss_weather_data := weather_data;
                                   ss_chat_history := Some [];
                                   ss_language := language;
                                   ss_formatted_weather := None |}]> (sessions sv) in
          let '(answer, tr3) := get_ai_suggestions E weather_data None language tr2 false in
          match answer with
          | Raise e => (Raise e, {| sessions := store; observed := tr3 |})
          | Ok res =>
              (Ok {| rw_session_id := sid;
                     rw_weather := formatted;
                     rw_suggestion := sg_content res |},
               {| sessions := store; observed := tr3 |})
          end
      end
  end.

(** GET /api/session/{session_id} *)
Definition get_session (sv : server) (session_id : string) : result session * server :=
  match sessions sv !! session_id with
  | None => (Raise (HTTPException 404 "Session not found"), sv)
  | Some s => (Ok s, sv)
  end.

(** DELETE /api/session/{session_id}/chat *)
Definition clear_chat (sv : server) (session_id : string) : result string * server :=
  match sessions sv !! session_id with
  | None => (Raise (HTTPException 404 "Session not found"), sv)
  | Some s =>
      (Ok "Chat history cleared",
       {| sessions := <[session_id := {| ss_weather_data := ss_weather_data s;
                                         ss_chat_history := Some [];
                                         ss_language := ss_language s;
                                         ss_formatted_weather := ss_formatted_weather s |}]>
                        (sessions sv);
          observed := observed sv |})
  end.

(** The requests a client can send, and the server after a run of them. *)
Inductive request : Type :=
| GetTranslations (language : string)
| GetExamples (language : string)
| PostWeather (location : string)
| PostSuggestions (session_id query language : string)
| PostWeatherWithSuggestions (location language : string) (session_id : option string)
| GetSession (session_id : string)
| DeleteChat (session_id : string).

Definition handle (sv : server) (r : request) : server :=
  match r with
  | GetTranslations language => snd (get_translations sv language)
  | GetExamples language => snd (get_examples sv language)
  | PostWeather location => snd (get_weather sv location)
  | PostSuggestions session_id query language =>
      snd (get_suggestions sv session_id query language)
  | PostWeatherWithSuggestions location language session_id =>
      snd (get_weather_with_suggestions sv location language session_id)
  | GetSession session_id => snd (get_session sv session_id)
  | DeleteChat session_id => snd (clear_chat sv session_id)
  end.

Definition serve (sv : server) (rs : list request) : server := fold_left handle rs sv.

End Endpoints.

(** ** The transcription endpoint *)

(** [s.split(sep)] for a separator of one character. *)
Fixpoint split (sep : ascii) (s : string) : list string :=
  match s with
  | EmptyString => [EmptyString]
  | String c rest =>
      if Ascii.eqb c sep then EmptyString :: split sep rest
      else match split sep rest with
           | segment :: segments => String c segment :: segments
           | [] => [String c EmptyString]
           end
  end.

(** Line 570: [file.filename.split('.')[-1].lower() if file.filename else None]. *)
Definition file_format (filename : option string) : option string :=
  match filename with
  | Some name =>
      if negb (String.eqb name "") then Some (lower (List.last (split "." name) ""))
      else None
  | None => None
  end.

(** What the transcription endpoint answers. *)
Record transcription_response : Type := {
  ts_transcript : json;
  ts_success : bool;
  ts_message : option string
}.

Section Transcription.
Context (E : environment).

(** POST /api/transcribe, once the uploaded file has been read. *)
Definition transcribe_audio (sv : server) (audio_bytes : list Byte.byte)
    (filename : option string) (language : string) (session_id : option string)
  : result transcription_response * server :=
  let '(transcript, tr) :=
    transcribe_audio_deepgram E (observed sv) audio_bytes (file_format filename) language in
  let sv' := {| sessions := sessions sv; observed := tr |} in
  match transcript with
  | Raise e => (Raise e, sv')
  | Ok text =>
      if truthy text then
        (Ok {| ts_transcript := text; ts_success := true; ts_message := None |}, sv')
      else
        (Ok {| ts_transcript := JNull; ts_success := false;
               ts_message := Some "No speech detected" |}, sv')
  end.

End Transcription.

(** ** Vocabulary of the properties *)

(** The payload has every field the weather provider's contract lists. *)
Definition has_keys (v : json) (keys : list string) : bool :=
  match v with
  | JObj fields => forallb (fun k => bool_decide (is_Some (dict_get k fields))) keys
  | _ => false
  end.

Definition field (v : json) (k : string) : json :=
  match v with
  | JObj fields => default JNull (dict_get k fields)
  | _ => JNull
  end.

Definition has_provider_fields (payload : json) : bool :=
  has_keys payload ["location"; "current"]
  && has_keys (field payload "location") ["name"; "country"; "localtime"]
  && has_keys (field payload "current")
       ["temp_c"; "temp_f"; "condition"; "feelslike_c"; "humidity"; "wind_kph";
        "wind_dir"; "precip_mm"; "uv"; "vis_km"]
  && has_keys (field (field payload "current") "condition") ["text"; "icon"].

(** Model rounds: the requests to the provider that open a pass through
    the loop (the retry without tools belongs to the same round). *)
Definition opens_round (ev : event) : bool :=
  match ev with
  | EvCompletion false _ _ _ => true
  | _ => false
  end.

Definition model_rounds (tr : trace) : nat := List.length (List.filter opens_round tr).

Definition is_fetch (ev : event) : bool :=
  match ev with
  | EvFetch _ _ => true
  | _ => false
  end.

(** The payload of the latest successful fetch among the events, or
    [initial] when there is none. *)
Definition last_resolved (initial : json) (tr : trace) : json :=
  fold_left (fun current ev =>
               match ev with
               | EvFetch _ (Ok payload) => payload
               | _ => current
               end) tr initial.

(** The arguments of every [get_weather] call decode to a JSON object. *)
Definition decodes (E : environment) (tc : tool_call) : Prop :=
  tc_name tc = "get_weather" ->
  exists fields, json_loads E (tc_arguments tc) = Ok (JObj fields).

(** [reaches st st']: the loop gets from [st] to [st'] by passes that end
    in [continue]. *)
Inductive reaches (E : environment) (weather_data : json) (user_query : option string)
    (language : string) : loop_state -> loop_state -> Prop :=
| reaches_here st : reaches E weather_data user_query language st st
| reaches_round st st' st'' :
    (iteration st < max_iterations)%nat ->
    loop_body E weather_data user_query language st = Continue st' ->
    reaches E weather_data user_query language st' st'' ->
    reaches E weather_data user_query language st st''.

(** The turns of a history alternate, starting with the user when
    [user_next] holds. *)
Fixpoint alternates (user_next : bool) (history : list chat_turn) : bool :=
  match history with
  | [] => true
  | t :: rest =>
      String.eqb (turn_role t) (if user_next then "user" else "assistant")
      && alternates (negb user_next) rest
  end.

Definition english_examples : list string :=
  [ "What should I wear today?";
    "Best time to go outside?";
    "Indoor activities for this weather?";
    "Recommended sports for this weather?" ].

(** The body the speech provider sends with a transcript. *)
Definition deepgram_body (transcript : json) : json :=
  JObj [ ("results",
          JObj [ ("channels",
                  JArr [ JObj [ ("alternatives",
                                 JArr [ JObj [ ("transcript", transcript) ] ]) ] ]) ]) ].

(** The body holds [results.channels[0].alternatives[0].transcript]. *)
Definition holds_transcript (body transcript : json) : Prop :=
  exists top results channel more_channels alternative more_alternatives,
    body = JObj top
    /\ dict_get "results" top = Some (JObj results)
    /\ dict_get "channels" results = Some (JArr (JObj channel :: more_channels))
    /\ dict_get "alternatives" channel
       = Some (JArr (JObj alternative :: more_alternatives))
    /\ dict_get "transcript" alternative = Some transcript.

(** The history is made of (user, assistant) pairs. *)
Definition paired (s : session) : Prop :=
  exists history, ss_chat_history s = Some history
                  /\ Nat.even (List.length history) = true
                  /\ alternates true history = true.

Definition all_paired (sv : server) : Prop :=
  forall session_id s, sessions sv !! session_id = Some s -> paired s.

(** The events of a pass, relative to the call: an extraction is guarded
    by the query, and happens in the first round before any fetch unless
    the call came without weather data. *)
Fixpoint guarded (weather_data : json) (user_query : option string) (language : string)
    (fetched : bool) (evs : trace) : Prop :=
  match evs with
  | [] => True
  | EvExtract i q l _ :: rest =>
      (user_query = Some q /\ q <> "" /\ l = language
       /\ ((i = 0%nat /\ fetched = false) \/ truthy weather_data = false))
      /\ guarded weather_data user_query language fetched rest
  | EvFetch _ _ :: rest => guarded weather_data user_query language true rest
  | _ :: rest => guarded weather_data user_query language fetched rest
  end.

Definition trace_of (st : step) : trace :=
  match st with
  | Continue st' => events st'
  | Return _ tr => tr
  | Raised _ tr => tr
  end.

Definition fetches_only (evs : trace) : Prop := Forall (fun ev => is_fetch ev = true) evs.

Definition has_fetch (evs : trace) : bool := existsb is_fetch evs.

(** What a pass adds to the trace and how it leaves the weather data. *)
Definition pass_spec (weather_data : json) (user_query : option string) (language : string)
    (st : loop_state) (fetched : bool) (tr : trace) (rounds : nat) (out : step) : Prop :=
  exists extra,
    trace_of out = tr ++ extra
    /\ model_rounds extra = rounds
    /\ guarded weather_data user_query language fetched extra
    /\ match out with
       | Continue st' => final_weather_data st' = last_resolved (final_weather_data st) extra
       | Return answer _ => sg_weather_data answer = last_resolved (final_weather_data st) extra
       | Raised _ _ => True
       end.

(** The trace of a call: its rounds, its extractions, and the weather
    data of a reply that comes out of the loop. *)
Definition call_spec (weather_data : json) (user_query : option string) (language : string)
    (tr : trace) (out : outcome (suggestion * trace)) : Prop :=
  exists new,
    match out with
    | Done (answer, tr') =>
        tr' = tr ++ new /\ sg_weather_data answer = last_resolved weather_data new
    | Fail _ tr' => tr' = tr ++ new
    end
    /\ (model_rounds new <= max_iterations)%nat
    /\ guarded weather_data user_query language false new.

Definition call_invariant (weather_data : json) (user_query : option string)
    (language : string) (tr : trace) (st : loop_state) : Prop :=
  exists new,
    events st = tr ++ new
    /\ model_rounds new = iteration st
    /\ (iteration st <= max_iterations)%nat
    /\ guarded weather_data user_query language false new
    /\ final_weather_data st = last_resolved weather_data new
    /\ (iteration st = 0%nat -> new = []).

(** A model that asks for a tool whenever it is offered one, with
    arguments that decode. *)
Definition always_requests_tools (E : environment) : Prop :=
  forall t msgs, exists m rest,
    chat_completions_create E t msgs true = Ok (m :: rest)
    /\ requests_tools m = true
    /\ Forall (decodes E) (default [] (tool_calls m)).

(** [sep.join(segments)] *)
Fixpoint join (sep : string) (segments : list string) : string :=
  match segments with
  | [] => EmptyString
  | [segment] => segment
  | segment :: rest => segment +:+ sep +:+ join sep rest
  end.

Definition is_completion (ev : event) : bool :=
  match ev with
  | EvCompletion _ _ _ _ => true
  | _ => false
  end.

(** The message list opens with the system instruction, followed by a
    user message. *)
Definition headed (language : string) (msgs : list chat_msg) : Prop :=
  exists prompt rest,
    msgs = RoleContent "system" (system_prompt language) :: RoleContent "user" prompt :: rest.

(** The failure text that makes the loop retry without tools. *)
Definition mentions_tools (E : environment) (e : exn) : bool :=
  contains "tool" (lower (exn_str E e)) || contains "function" (lower (exn_str E e)).

(** The requests of a call, read along its events.  [allowed] tells
    whether the tool may still be offered, [pending] holds the message list
    of a first attempt that has just failed with a text about tools. *)
Fixpoint requests_follow (E : environment) (language : string) (allowed : bool)
    (pending : option (list chat_msg)) (evs : trace) : Prop :=
  match evs with
  | [] => True
  | EvCompletion false msgs with_tools answer :: rest =>
      (with_tools = true -> allowed = true)
      /\ headed language msgs
      /\ requests_follow E language (allowed && with_tools)
           (match answer with
            | Raise e => if mentions_tools E e then Some msgs else None
            | Ok _ => None
            end) rest
  | EvCompletion true msgs with_tools _ :: rest =>
      with_tools = false
      /\ pending = Some msgs
      /\ headed language msgs
      /\ requests_follow E language false None rest
  | _ :: rest => requests_follow E language allowed None rest
  end.

(** Whether the tool may still be offered after the events. *)
Definition allowed_after (allowed : bool) (evs : trace) : bool :=
  fold_left (fun still ev =>
               match ev with
               | EvCompletion _ _ with_tools _ => still && with_tools
               | _ => still
               end) evs allowed.

Definition offers_tools (ev : event) : bool :=
  match ev with
  | EvCompletion _ _ with_tools _ => with_tools
  | _ => false
  end.

(** No event is a request to the model provider. *)
Definition quiet (evs : trace) : Prop := Forall (fun ev => is_completion ev = false) evs.

(** No character of the string is the separator. *)
Fixpoint free_of (sep : ascii) (s : string) : bool :=
  match s with
  | EmptyString => true
  | String c rest => negb (Ascii.eqb c sep) && free_of sep rest
  end.

Definition creates_session (r : request) : bool :=
  match r with
  | PostWeatherWithSuggestions _ _ _ => true
  | _ => false
  end.

(** The requests whose handlers never assign to [sessions] or to a session. *)
Definition reads_only (r : request) : bool :=
  match r with
  | GetTranslations _ | GetExamples _ | PostWeather _ | GetSession _ => true
  | _ => false
  end.

(** The text holds ASCII characters only; there [lower] is Python's
    [str.lower]. *)
Fixpoint ascii_only (s : string) : bool :=
  match s with
  | EmptyString => true
  | String c rest => (nat_of_ascii c <? 128)%nat && ascii_only rest
  end.

Definition asks_weather (tc : tool_call) : bool := String.eqb (tc_name tc) "get_weather".

(** The entry is the tool result of the call. *)
Definition answers (tc : tool_call) (entry : chat_msg) : Prop :=
  exists text, entry = ToolResult (tc_id tc) "get_weather" text.

Definition resolves (ev : event) : bool :=
  match ev with
  | EvFetch _ (Ok _) => true
  | _ => false
  end.

(** ** Concrete collaborators for the examples *)

Module Demo.

Definition payload (name country : string) (fields : list (string * json)) : json :=
  JObj [ ("location", JObj [ ("name", JStr name); ("country", JStr country);
                             ("localtime", JStr "2024-05-01 12:00") ]);
         ("current", JObj fields) ].

Definition conditions : list (string * json) :=
  [ ("temp_c", JInt 21); ("temp_f", JInt 70);
    ("condition", JObj [ ("text", JStr "Sunny"); ("icon", JStr "//cdn.weatherapi.com/113.png") ]);
    ("feelslike_c", JInt 20); ("humidity", JInt 40); ("wind_kph", JInt 9);
    ("wind_dir", JStr "NE"); ("precip_mm", JInt 0); ("uv", JInt 5); ("vis_km", JInt 10) ].

Definition tokyo : json := payload "Tokyo" "Japan" conditions.
Definition osaka : json := payload "Osaka" "Japan" conditions.

(** A payload in which the provider left the UV index out. *)
Definition tokyo_without_uv : json :=
  payload "Tokyo" "Japan"
    (List.filter (fun kv => negb (String.eqb (fst kv) "uv")) conditions).

(** [str(e)]: the status and the detail for an [HTTPException], the
    quoted key for a [KeyError], the text otherwise. *)
Definition str_exn (e : exn) : string :=
  match e with
  | HTTPException status_code detail => pretty status_code +:+ ": " +:+ detail
  | KeyError key => "'" +:+ key +:+ "'"
  | TypeError msg | AttributeError msg | IndexError msg => msg
  | LibraryError text => text
  end.

Fixpoint json_eqb (a b : json) : bool :=
  match a, b with
  | JNull, JNull => true
  | JBool x, JBool y => Bool.eqb x y
  | JInt x, JInt y => (x =? y)%Z
  | JFloat m e, JFloat m' e' => (m =? m')%Z && (e =? e')%Z
  | JStr x, JStr y => String.eqb x y
  | JArr xs, JArr ys =>
      (fix items (xs ys : list json) : bool :=
         match xs, ys with
         | [], [] => true
         | x :: xs', y :: ys' => json_eqb x y && items xs' ys'
         | _, _ => false
         end) xs ys
  | JObj xs, JObj ys =>
      (fix fields (xs ys : list (string * json)) : bool :=
         match xs, ys with
         | [], [] => true
         | (k, x) :: xs', (k', y) :: ys' => String.eqb k k' && json_eqb x y && fields xs' ys'
         | _, _ => false
         end) xs ys
  | _, _ => false
  end.

(** The argument strings the demo model produces. *)
Definition location_arguments (place : string) : string :=
  "{" +:+ dq +:+ "location" +:+ dq +:+ ": " +:+ dq +:+ place +:+ dq +:+ "}".

Definition loads (text : string) : result json :=
  if String.eqb text (location_arguments "Osaka") then Ok (JObj [("location", JStr "Osaka")])
  else if String.eqb text (location_arguments "Atlantis") then
    Ok (JObj [("location", JStr "Atlantis")])
  else Raise (LibraryError "Expecting property name enclosed in double quotes").

Definition weather_call (id place : string) : tool_call :=
  {| tc_id := id; tc_name := "get_weather"; tc_arguments := location_arguments place |}.

Definition asks (calls : list tool_call) : message :=
  {| content := None; tool_calls := Some calls |}.

Definition says (text : string) : message :=
  {| content := Some text; tool_calls := None |}.

(** The weather provider knows Tokyo and Osaka. *)
Definition weather_provider (t : nat) (url : string) : result json :=
  if contains "q=Tokyo&" url then Ok tokyo
  else if contains "q=Osaka&" url then Ok osaka
  else Raise (LibraryError "400 Client Error: Bad Request for url").

Definition world (chat : nat -> list chat_msg -> bool -> result (list message))
    (get : nat -> string -> result json) (extract : string -> string -> option string)
    (post : nat -> string -> string -> list Byte.byte -> result (Z * string * result json))
  : environment :=
  {| repr_value := fun _ => "<object>";
     exn_str := str_exn;
     py_eq := json_eqb;
     json_loads := loads;
     chat_completions_create := chat;
     requests_get := get;
     requests_post := post;
     uuid4 := fun t => "session-" +:+ pretty t;
     extract_location_from_query := extract;
     WEATHER_API_KEY := "key" |}.

Definition no_extraction (query language : string) : option string := None.

Definition speech_down (t : nat) (content_type language : string) (audio : list Byte.byte)
  : result (Z * string * result json) :=
  Raise (LibraryError "connection refused").

(** A model that asks for Osaka's weather on every round. *)
Definition always_asks : environment :=
  world (fun _ _ _ => Ok [asks [weather_call "call_1" "Osaka"]])
        weather_provider no_extraction speech_down.

(** A model whose tool call carries arguments that are not JSON. *)
Definition garbled_arguments : environment :=
  world (fun _ _ _ => Ok [asks [ {| tc_id := "call_1"; tc_name := "get_weather";
                                    tc_arguments := "{" |} ]])
        weather_provider no_extraction speech_down.

(** The model asks for Osaka first; the provider's next answer is a
    rate-limit failure. *)
Definition fails_in_second_round : environment :=
  world (fun t _ _ => if (t =? 0)%nat then Ok [asks [weather_call "call_1" "Osaka"]]
                      else Raise (LibraryError "rate limit exceeded"))
        weather_provider no_extraction speech_down.

(** The model asks for Osaka first, then answers in text. *)
Definition asks_then_answers : environment :=
  world (fun t _ _ => if (t =? 0)%nat then Ok [asks [weather_call "call_1" "Osaka"]]
                      else Ok [says "Take an umbrella."])
        weather_provider no_extraction speech_down.

(** The speech provider rejects the request. *)
Definition speech_not_found : environment :=
  world (fun _ _ _ => Ok [says "Go for a walk."]) weather_provider no_extraction
        (fun _ _ _ _ => Ok (404%Z, "Not Found", Raise (LibraryError "no json"))).

(** A store with two sessions, one of which has a recorded exchange. *)
Definition two_sessions : server :=
  {| sessions :=
       <["a" := {| ss_weather_data := tokyo;
                   ss_chat_history :=
                     Some [ {| turn_role := "user"; turn_content := Some "What should I wear?" |};
                            {| turn_role := "assistant"; turn_content := Some "A light jacket." |} ];
                   ss_language := "en";
                   ss_formatted_weather := None |}]>
       (<["b" := {| ss_weather_data := osaka;
                    ss_chat_history := Some [];
                    ss_language := "ja";
                    ss_formatted_weather := None |}]> ∅);
     observed := [] |}.

End Demo.

(** Further scenes for the examples. *)
Module Scene.

(** An extractor that knows Osaka; the heuristic of the module finds the
    same place in the query used below. *)
Definition finds_osaka (query language : string) : option string :=
  if contains "Osaka" query then Some "Osaka" else None.

(** The provider rejects every request that offers the tool and answers
    in text otherwise. *)
Definition refuses_tools : environment :=
  Demo.world (fun _ _ with_tools =>
                if with_tools then Raise (LibraryError "Tool calling is not supported")
                else Ok [Demo.says "Pack a raincoat."])
             Demo.weather_provider finds_osaka Demo.speech_down.

(** The model never asks for a tool. *)
Definition only_talks : environment :=
  Demo.world (fun _ _ _ => Ok [Demo.says "Pack a raincoat."])
             Demo.weather_provider finds_osaka Demo.speech_down.

(** A payload without the Fahrenheit temperature: the tool message can be
    written from it, the snapshot for display cannot. *)
Definition osaka_without_temp_f : json :=
  Demo.payload "Osaka" "Japan"
    (List.filter (fun kv => negb (String.eqb (fst kv) "temp_f")) Demo.conditions).

Definition partial_provider : environment :=
  Demo.world (fun t _ _ => if (t =? 0)%nat then Ok [Demo.asks [Demo.weather_call "call_1" "Osaka"]]
                           else Ok [Demo.says "Take an umbrella."])
             (fun _ _ => Ok osaka_without_temp_f) Demo.no_extraction Demo.speech_down.

(** The model asks for an unknown tool and for Osaka's weather. *)
Definition mixed_calls : list tool_call :=
  [ {| tc_id := "call_a"; tc_name := "get_time"; tc_arguments := "{}" |};
    Demo.weather_call "call_b" "Osaka" ].

(** The model asks for the weather without naming a place. *)
Definition no_place : environment :=
  {| repr_value := fun _ => "<object>";
     exn_str := Demo.str_exn;
     py_eq := Demo.json_eqb;
     json_loads := fun text => if String.eqb text "{}" then Ok (JObj [])
                               else Raise (LibraryError "Expecting value");
     chat_completions_create :=
       fun _ _ _ => Ok [Demo.asks [ {| tc_id := "call_1"; tc_name := "get_weather";
                                       tc_arguments := "{}" |} ]];
     requests_get := Demo.weather_provider;
     requests_post := Demo.speech_down;
     uuid4 := fun t => "session-" +:+ pretty t;
     extract_location_from_query := Demo.no_extraction;
     WEATHER_API_KEY := "key" |}.

(** A call against the provider that refuses tools. *)
Definition refused_call : result suggestion * trace :=
  get_ai_suggestions refuses_tools Demo.tokyo (Some "weather in Osaka?") "en" [] true.

(** The speech provider hears nothing. *)
Definition silence : environment :=
  Demo.world (fun _ _ _ => Ok [Demo.says "Pack a raincoat."]) Demo.weather_provider
             Demo.no_extraction
             (fun _ _ _ _ => Ok (200%Z, "", Ok (deepgram_body (JStr "")))).



End Scene.

(** ** Properties of the weather gateway *)

Lemma subscript_ok (v : json) (k : string) (x : json) :
  subscript v k = Ok x <-> exists fields, v = JObj fields /\ dict_get k fields = Some x.
Proof.
  split.
  - destruct v; simpl; try discriminate.
    destruct (dict_get k fields) eqn:Hget; intros [= <-]. eauto.
  - intros (fields & -> & Hget). simpl. rewrite Hget. reflexivity.
Qed.

Lemma has_keys_cons (v : json) (k : string) (ks : list string) :
  has_keys v (k :: ks) = is_ok (subscript v k) && has_keys v ks.
Proof.
  destruct v; simpl; try reflexivity.
  destruct (dict_get k fields); reflexivity.
Qed.

Lemma has_keys_nil (v : json) (k : string) (x : json) :
  subscript v k = Ok x -> has_keys v [] = true.
Proof. intros (fields & -> & _)%subscript_ok. reflexivity. Qed.

Lemma field_subscript (v : json) (k : string) (x : json) :
  subscript v k = Ok x -> field v k = x.
Proof. intros (fields & -> & Hget)%subscript_ok. simpl. rewrite Hget. reflexivity. Qed.

Ltac step_subscripts :=
  repeat lazymatch goal with
  | |- context [match subscript ?v ?k with _ => _ end] =>
      let H := fresh "Hsub" in
      destruct (subscript v k) eqn:H;
      [ try rewrite (field_subscript _ _ _ H) | ]
  end.

(** C7 (as amended).  [format_weather_data] is a function of the payload
    alone.  It answers [None] for a falsy payload; for any other payload it
    builds a snapshot exactly when the payload has every field of the
    provider's contract, and the snapshot keeps the payload as [raw_data];
    when a field is missing it raises instead of leaving the field absent. *)
Theorem format_weather_data_needs_every_field (E : environment) (weather_data : json) :
  match format_weather_data E weather_data with
  | Ok None => truthy weather_data = false
  | Ok (Some snapshot) =>
      truthy weather_data = true /\ has_provider_fields weather_data = true
      /\ fw_raw_data snapshot = weather_data
  | Raise _ => truthy weather_data = true /\ has_provider_fields weather_data = false
  end.
Proof.
  unfold format_weather_data.
  destruct (truthy weather_data) eqn:Htruthy; simpl; [|reflexivity].
  unfold has_provider_fields. rewrite !has_keys_cons.
  unfold mbind, result_bind.
  step_subscripts; simpl.
  all: try (split; [reflexivity|]).
  all: rewrite ?andb_false_r, ?andb_false_l; simpl; try reflexivity.
  rewrite (has_keys_nil _ _ _ Hsub), (has_keys_nil _ _ _ Hsub1),
    (has_keys_nil _ _ _ Hsub3), (has_keys_nil _ _ _ Hsub6).
  split; reflexivity.
Qed.

(** C7, the claim as written fails: a payload without the UV index makes
    [format_weather_data] raise [KeyError]. *)
Lemma format_weather_data_missing_uv_raises :
  format_weather_data Demo.always_asks Demo.tokyo_without_uv = Raise (KeyError "uv").
Proof. reflexivity. Qed.

Lemma describe_weather_ok (E : environment) (header : string) (payload : json) :
  has_provider_fields payload = true ->
  exists text, describe_weather E header payload = Ok text.
Proof.
  unfold has_provider_fields, describe_weather, weather_block.
  rewrite !has_keys_cons. unfold mbind, result_bind.
  step_subscripts; simpl; rewrite ?andb_false_r, ?andb_false_l; simpl;
    try discriminate; eauto.
Qed.

Lemma format_weather_data_ok_fields (E : environment) (payload : json) :
  is_ok (format_weather_data E payload) = true ->
  truthy payload = false \/ has_provider_fields payload = true.
Proof.
  unfold format_weather_data.
  destruct (truthy payload); simpl; [|left; reflexivity].
  unfold has_provider_fields. rewrite !has_keys_cons.
  unfold mbind, result_bind.
  step_subscripts; simpl; try discriminate.
  intros _. right.
  rewrite (has_keys_nil _ _ _ Hsub), (has_keys_nil _ _ _ Hsub1),
    (has_keys_nil _ _ _ Hsub3), (has_keys_nil _ _ _ Hsub6).
  reflexivity.
Qed.

(** ** Properties of the speech gateway *)

Lemma transcribe_empty_transcript (E : environment) (tr : trace) (audio : list Byte.byte)
    (audio_format : option string) (language text : string) :
  requests_post E (List.length tr) (deepgram_content_type audio_format) language audio
    = Ok (200%Z, text, Ok (deepgram_body (JStr ""))) ->
  fst (transcribe_audio_deepgram E tr audio audio_format language) = Ok JNull.
Proof.
  intros Hpost. unfold transcribe_audio_deepgram. rewrite Hpost. reflexivity.
Qed.

(** C5, what the code does for a status other than 200: the
    [HTTPException] carrying the provider's status is raised inside the
    [try] block, so the handler of the same function catches it and raises
    a new one whose status is 500. *)
Theorem transcribe_non_success_status_becomes_500 (E : environment) (tr : trace)
    (audio : list Byte.byte) (audio_format : option string) (language : string)
    (status_code : Z) (text : string) (body : result json) :
  requests_post E (List.length tr) (deepgram_content_type audio_format) language audio
    = Ok (status_code, text, body) ->
  status_code <> 200%Z ->
  fst (transcribe_audio_deepgram E tr audio audio_format language)
  = Raise (HTTPException 500
             ("Transcription error: "
              +:+ exn_str E (HTTPException status_code ("Deepgram API Error: " +:+ text)))).
Proof.
  intros Hpost Hstatus. unfold transcribe_audio_deepgram, deepgram_response.
  rewrite Hpost. apply Z.eqb_neq in Hstatus. rewrite Hstatus. reflexivity.
Qed.

(** The speech provider answers 404. *)
Lemma transcribe_not_found_witness :
  fst (transcribe_audio_deepgram Demo.speech_not_found [] [] (Some "mp3") "en")
  = Raise (HTTPException 500 "Transcription error: 404: Deepgram API Error: Not Found").
Proof.
  apply (transcribe_non_success_status_becomes_500 Demo.speech_not_found [] []
           (Some "mp3") "en" 404 "Not Found" (Raise (LibraryError "no json"))).
  - reflexivity.
  - discriminate.
Defined.

(** ** Properties of the endpoints *)

(** C6 (as amended).  For a language code outside the translation table
    the translations endpoint fails with status 400, the examples endpoint
    answers the English examples, and neither changes the server. *)
Theorem unsupported_language_endpoints (sv : server) (language : string) :
  assoc_get language translations = None ->
  get_translations sv language = (Raise (HTTPException 400 "Language not supported"), sv)
  /\ get_examples sv language = (Ok english_examples, sv).
Proof.
  intros Hmissing. split.
  - unfold get_translations. rewrite Hmissing. reflexivity.
  - unfold get_examples. destruct (String.eqb language "ja") eqn:Hja; [|reflexivity].
    apply String.eqb_eq in Hja. subst language. discriminate Hmissing.
Qed.

(** French is not in the translation table. *)
Lemma unsupported_language_witness :
  get_translations Demo.two_sessions "fr"
    = (Raise (HTTPException 400 "Language not supported"), Demo.two_sessions)
  /\ get_examples Demo.two_sessions "fr" = (Ok english_examples, Demo.two_sessions).
Proof. apply (unsupported_language_endpoints Demo.two_sessions "fr"). reflexivity. Defined.

(** C6, the claim as written fails: French is not a supported locale and
    the examples endpoint answers it without an error. *)
Lemma examples_endpoint_accepts_unsupported_language :
  assoc_get "fr" translations = None
  /\ fst (get_examples startup "fr") = Ok english_examples.
Proof. split; reflexivity. Qed.

(** C9.  Clearing the chat of an existing session empties its history,
    leaves its weather data (and its other keys) as they were, and leaves
    every other session as it was. *)
Theorem clear_chat_keeps_weather (sv : server) (session_id : string) (s : session) :
  sessions sv !! session_id = Some s ->
  fst (clear_chat sv session_id) = Ok "Chat history cleared"
  /\ sessions (snd (clear_chat sv session_id)) !! session_id
     = Some {| ss_weather_data := ss_weather_data s;
               ss_chat_history := Some [];
               ss_language := ss_language s;
               ss_formatted_weather := ss_formatted_weather s |}
  /\ forall other, other <> session_id ->
       sessions (snd (clear_chat sv session_id)) !! other = sessions sv !! other.
Proof.
  intros Hfound. unfold clear_chat. rewrite Hfound. simpl.
  split; [reflexivity|]. split.
  - apply lookup_insert_eq.
  - intros other Hother. apply lookup_insert_ne. congruence.
Qed.

(** Session "a" of the demo store after its chat is cleared. *)
Lemma clear_chat_witness :
  sessions (snd (clear_chat Demo.two_sessions "a")) !! "a"
  = Some {| ss_weather_data := Demo.tokyo;
            ss_chat_history := Some [];
            ss_language := "en";
            ss_formatted_weather := None |}.
Proof.
  refine (proj1 (proj2 (clear_chat_keeps_weather Demo.two_sessions "a"
    {| ss_weather_data := Demo.tokyo;
       ss_chat_history :=
         Some [ {| turn_role := "user"; turn_content := Some "What should I wear?" |};
                {| turn_role := "assistant"; turn_content := Some "A light jacket." |} ];
       ss_language := "en";
       ss_formatted_weather := None |} _))).
  reflexivity.
Defined.

Lemma build_prompt_ok (E : environment) (weather_data : json) (user_query : option string)
    (language : string) :
  truthy weather_data = false \/ has_provider_fields weather_data = true ->
  is_ok (build_prompt E weather_data user_query language) = true.
Proof.
  intros Hshape. unfold build_prompt.
  destruct (truthy weather_data) eqn:Htruthy; [|reflexivity].
  destruct Hshape as [Hfalsy|Hfields]; [discriminate|].
  destruct (describe_weather_ok E "Current weather in " _ Hfields) as [text ->].
  reflexivity.
Qed.

Lemma get_ai_suggestions_ok (E : environment) (weather_data : json)
    (user_query : option string) (language : string) (tr : trace) (auto : bool) :
  is_ok (build_prompt E weather_data user_query language) = true ->
  is_ok (fst (get_ai_suggestions E weather_data user_query language tr auto)) = true.
Proof.
  unfold get_ai_suggestions.
  destruct (build_prompt E weather_data user_query language) as [prompt|e];
    [intros _|discriminate].
  destruct (while_loop _ _ _ _ _) as [[answer tr']|e tr']; reflexivity.
Qed.

(** C10.  When the fetch succeeds with a payload the formatter accepts,
    the weather-with-suggestions endpoint called with the id of an existing
    session stores a new session under that id: empty history, the fetched
    weather data and the requested language.  What the old session held is
    gone; the other sessions are as they were. *)
Theorem weather_with_suggestions_replaces_session (E : environment) (sv : server)
    (location language session_id : string) (old : session) (fetched : json) :
  session_id <> "" ->
  sessions sv !! session_id = Some old ->
  fst (fetch_weather E (observed sv) (JStr location)) = Ok fetched ->
  is_ok (format_weather_data E fetched) = true ->
  let out := get_weather_with_suggestions E sv location language (Some session_id) in
  (exists response, fst out = Ok response /\ rw_session_id response = session_id)
  /\ sessions (snd out) !! session_id
     = Some {| ss_weather_data := fetched;
               ss_chat_history := Some [];
               ss_language := language;
               ss_formatted_weather := None |}
  /\ forall other, other <> session_id ->
       sessions (snd out) !! other = sessions sv !! other.
Proof.
  intros Hid _ Hfetch Hformat out. subst out. unfold get_weather_with_suggestions.
  destruct (fetch_weather E (observed sv) (JStr location)) as [answer tr1].
  simpl in Hfetch. subst answer.
  pose proof (format_weather_data_ok_fields E fetched Hformat) as Hshape.
  destruct (format_weather_data E fetched) as [formatted|e]; [|discriminate].
  apply String.eqb_neq in Hid. rewrite Hid. simpl.
  pose proof (get_ai_suggestions_ok E fetched None language tr1 false
                (build_prompt_ok E fetched None language Hshape)) as Hok.
  destruct (get_ai_suggestions E fetched None language tr1 false) as [[res|e] tr3];
    [|discriminate].
  simpl. split; [eauto|]. split.
  - apply lookup_insert_eq.
  - intros other Hother. apply lookup_insert_ne. congruence.
Qed.

(** Session "a" of the demo store, which held Tokyo's weather and one
    exchange, after the endpoint is called for Osaka with its id. *)
Lemma weather_with_suggestions_witness :
  sessions (snd (get_weather_with_suggestions Demo.asks_then_answers Demo.two_sessions
                   "Osaka" "ja" (Some "a"))) !! "a"
  = Some {| ss_weather_data := Demo.osaka;
            ss_chat_history := Some [];
            ss_language := "ja";
            ss_formatted_weather := None |}.
Proof.
  refine (proj1 (proj2 (weather_with_suggestions_replaces_session Demo.asks_then_answers
    Demo.two_sessions "Osaka" "ja" "a"
    {| ss_weather_data := Demo.tokyo;
       ss_chat_history :=
         Some [ {| turn_role := "user"; turn_content := Some "What should I wear?" |};
                {| turn_role := "assistant"; turn_content := Some "A light jacket." |} ];
       ss_language := "en";
       ss_formatted_weather := None |}
    Demo.osaka _ _ _ _)));
    [discriminate | reflexivity | reflexivity | reflexivity].
Defined.

(** Session histories *)

Lemma alternates_app (user_next : bool) (h h' : list chat_turn) :
  alternates user_next (h ++ h')
  = alternates user_next h && alternates (xorb user_next (Nat.odd (List.length h))) h'.
Proof.
  revert user_next. induction h as [|t h IH]; intros user_next; simpl.
  - rewrite xorb_false_r. reflexivity.
  - rewrite IH, Nat.odd_succ, <- Nat.negb_odd, <- andb_assoc.
    do 2 f_equal. destruct user_next, (Nat.odd (List.length h)); reflexivity.
Qed.

Lemma record_exchange_paired (s : session) (query : string) (suggestion : option string) :
  paired s -> paired (record_exchange s query suggestion).
Proof.
  intros (history & Hhist & Heven & Halt). unfold record_exchange. rewrite Hhist.
  eexists. split; [reflexivity|]. simpl. split.
  - rewrite length_app. simpl. rewrite Nat.add_comm. simpl. exact Heven.
  - rewrite alternates_app, Halt, <- Nat.negb_even, Heven. reflexivity.
Qed.

Lemma insert_paired (store : gmap string session) (session_id : string) (s : session) :
  (forall id s', store !! id = Some s' -> paired s') ->
  paired s ->
  forall id s', <[session_id := s]> store !! id = Some s' -> paired s'.
Proof.
  intros Hstore Hs id s'. destruct (decide (session_id = id)) as [->|Hne].
  - rewrite lookup_insert_eq. intros [= <-]. exact Hs.
  - rewrite lookup_insert_ne by exact Hne. apply Hstore.
Qed.

Lemma get_suggestions_paired (E : environment) (sv : server)
    (session_id query language : string) :
  all_paired sv -> all_paired (snd (get_suggestions E sv session_id query language)).
Proof.
  intros Hinv. unfold get_suggestions.
  destruct (sessions sv !! session_id) as [s|] eqn:Hfound; [|exact Hinv].
  pose proof (Hinv _ _ Hfound) as Hs.
  destruct (get_ai_suggestions E (ss_weather_data s) (Some query) language (observed sv) true)
    as [[res|e] tr]; [|exact Hinv].
  set (changed := truthy (sg_weather_data res)
                  && negb (py_eq E (sg_weather_data res) (ss_weather_data s))).
  destruct changed; simpl.
  - destruct (format_weather_data E (sg_weather_data res)) as [formatted|e]; simpl.
    + unfold all_paired. simpl. apply insert_paired; [exact Hinv|].
      destruct (String.eqb query ""); simpl; [exact Hs|].
      apply record_exchange_paired. exact Hs.
    + unfold all_paired. simpl. apply insert_paired; [exact Hinv|exact Hs].
  - unfold all_paired. simpl. apply insert_paired; [exact Hinv|].
    destruct (String.eqb query ""); simpl; [exact Hs|].
    apply record_exchange_paired. exact Hs.
Qed.

Lemma handle_paired (E : environment) (sv : server) (r : request) :
  all_paired sv -> all_paired (handle E sv r).
Proof.
  intros Hinv. destruct r; simpl.
  - unfold get_translations. destruct (assoc_get language translations); exact Hinv.
  - unfold get_examples. destruct (String.eqb language "ja"); exact Hinv.
  - unfold get_weather.
    destruct (fetch_weather E (observed sv) (JStr location)) as [[w|e] tr]; exact Hinv.
  - apply get_suggestions_paired. exact Hinv.
  - unfold get_weather_with_suggestions.
    destruct (fetch_weather E (observed sv) (JStr location)) as [[w|e] tr1]; [|exact Hinv].
    destruct (format_weather_data E w) as [formatted|e]; [|exact Hinv].
    destruct (match session_id with
              | Some given =>
                  if negb (String.eqb given "") then (given, tr1)
                  else (uuid4 E (List.length tr1), tr1 ++ [EvUuid (uuid4 E (List.length tr1))])
              | None => (uuid4 E (List.length tr1), tr1 ++ [EvUuid (uuid4 E (List.length tr1))])
              end) as [sid tr2].
    assert (paired {| ss_weather_data := w; ss_chat_history := Some [];
                      ss_language := language; ss_formatted_weather := None |}) as Hnew.
    { exists []. repeat split. }
    destruct (get_ai_suggestions E w None language tr2 false) as [[res|e] tr3];
      unfold all_paired; simpl; apply insert_paired; assumption.
  - unfold get_session. destruct (sessions sv !! session_id); exact Hinv.
  - unfold clear_chat. destruct (sessions sv !! session_id) as [s|]; [|exact Hinv].
    unfold all_paired. simpl. apply insert_paired; [exact Hinv|].
    exists []. repeat split.
Qed.

Lemma serve_paired (E : environment) (rs : list request) (sv : server) :
  all_paired sv -> all_paired (serve E sv rs).
Proof.
  revert sv. induction rs as [|r rs IH]; intros sv Hinv; simpl; [exact Hinv|].
  apply IH, handle_paired, Hinv.
Qed.

(** What a suggestion call leaves in the history of its session. *)
Lemma get_suggestions_records (E : environment) (sv : server)
    (session_id query language : string) (s : session) :
  sessions sv !! session_id = Some s ->
  exists s',
    sessions (snd (get_suggestions E sv session_id query language)) !! session_id = Some s'
    /\ ss_chat_history s'
       = match fst (get_suggestions E sv session_id query language) with
         | Ok response =>
             if String.eqb query "" then ss_chat_history s
             else Some (default [] (ss_chat_history s)
                        ++ [ {| turn_role := "user"; turn_content := Some query |};
                             {| turn_role := "assistant";
                                turn_content := rs_suggestion response |} ])
         | Raise _ => ss_chat_history s
         end.
Proof.
  intros Hfound. unfold get_suggestions. rewrite Hfound.
  destruct (get_ai_suggestions E (ss_weather_data s) (Some query) language (observed sv) true)
    as [[res|e] tr]; simpl; [|eauto].
  destruct (truthy (sg_weather_data res)
            && negb (py_eq E (sg_weather_data res) (ss_weather_data s))); simpl.
  - destruct (format_weather_data E (sg_weather_data res)) as [formatted|e]; simpl;
      rewrite lookup_insert_eq; eexists; (split; [reflexivity|]);
      [destruct (String.eqb query "")|]; reflexivity.
  - rewrite lookup_insert_eq. eexists. split; [reflexivity|].
    destruct (String.eqb query ""); reflexivity.
Qed.

(** C8.  Whatever requests the server has handled since it started, every
    session's history has even length and alternates user, assistant,
    starting with the user; and one more suggestion call on the session
    that succeeds with a non-empty query leaves the history followed by the
    user turn with the query and the assistant turn with the suggestion it
    returns, while a call that fails or has an empty query leaves the
    history as it is. *)
Theorem chat_history_is_paired (E : environment) (rs : list request)
    (session_id : string) (s : session) :
  sessions (serve E startup rs) !! session_id = Some s ->
  exists history,
    ss_chat_history s = Some history
    /\ Nat.even (List.length history) = true
    /\ alternates true history = true
    /\ forall query language,
         exists s',
           sessions (snd (get_suggestions E (serve E startup rs) session_id query language))
             !! session_id = Some s'
           /\ ss_chat_history s'
              = Some (match fst (get_suggestions E (serve E startup rs) session_id
                                   query language) with
                      | Ok response =>
                          if String.eqb query "" then history
                          else history
                               ++ [ {| turn_role := "user"; turn_content := Some query |};
                                    {| turn_role := "assistant";
                                       turn_content := rs_suggestion response |} ]
                      | Raise _ => history
                      end).
Proof.
  intros Hfound.
  assert (all_paired startup) as Hstart.
  { intros id s0. unfold startup. simpl. rewrite lookup_empty. discriminate. }
  destruct (serve_paired E rs startup Hstart _ _ Hfound) as (history & Hhist & Heven & Halt).
  exists history. repeat split; try assumption.
  intros query language.
  destruct (get_suggestions_records E _ session_id query language s Hfound)
    as (s' & Hafter & Hrecorded).
  exists s'. split; [exact Hafter|]. rewrite Hrecorded, Hhist. simpl.
  destruct (fst (get_suggestions E (serve E startup rs) session_id query language));
    [destruct (String.eqb query "")|]; reflexivity.
Qed.

(** A session is created for Tokyo and asked one question. *)
Lemma chat_history_witness :
  exists s',
    sessions (snd (get_suggestions Demo.asks_then_answers
                     (serve Demo.asks_then_answers startup
                        [PostWeatherWithSuggestions "Tokyo" "en" (Some "s1")])
                     "s1" "What about Osaka?" "en")) !! "s1" = Some s'
    /\ ss_chat_history s'
       = Some [ {| turn_role := "user"; turn_content := Some "What about Osaka?" |};
                {| turn_role := "assistant"; turn_content := Some "Take an umbrella." |} ].
Proof.
  destruct (chat_history_is_paired Demo.asks_then_answers
              [PostWeatherWithSuggestions "Tokyo" "en" (Some "s1")]
              "s1"
              {| ss_weather_data := Demo.tokyo;
                 ss_chat_history := Some [];
                 ss_language := "en";
                 ss_formatted_weather := None |})
    as (history & Hhist & _ & _ & Happend).
  - vm_compute. reflexivity.
  - injection Hhist as <-.
    destruct (Happend "What about Osaka?" "en") as (s' & Hafter & Hrecorded).
    exists s'. split; [exact Hafter|]. rewrite Hrecorded. vm_compute. reflexivity.
Defined.
(** ** Properties of the orchestrator *)

Section OrchestratorFacts.
Context (E : environment) (weather_data : json) (user_query : option string)
  (language : string).

Lemma while_loop_eq (st : loop_state) :
  while_loop E weather_data user_query language st =
  if (iteration st <? max_iterations)%nat then
    match loop_body E weather_data user_query language st with
    | Continue st' => while_loop E weather_data user_query language st'
    | Return answer tr => Done (answer, tr)
    | Raised e tr => Fail e tr
    end
  else Done (max_iterations_reply st).
Proof.
  funelim (while_loop E weather_data user_query language st);
    repeat match goal with
           | Heq : ?x = _ |- context [?x] => rewrite Heq
           end; reflexivity.
Qed.

Lemma loop_body_iteration (st st' : loop_state) :
  loop_body E weather_data user_query language st = Continue st' ->
  iteration st' = S (iteration st).
Proof.
  unfold loop_body, react, fallback, finalize.
  destruct (create_completion E st) as [[answer auto] tr].
  repeat case_match; intros [= <-]; simpl; lia.
Qed.

(** The rule of the loop: an invariant [I] kept by every pass that
    continues gives [Q] for the reply, provided the passes that leave the
    loop and the exit after the last round establish [Q]. *)
Lemma while_loop_rule (I : loop_state -> Prop) (Q : outcome (suggestion * trace) -> Prop) :
  (forall st, I st -> (iteration st < max_iterations)%nat ->
     match loop_body E weather_data user_query language st with
     | Continue st' => I st'
     | Return answer tr => Q (Done (answer, tr))
     | Raised e tr => Q (Fail e tr)
     end) ->
  (forall st, I st -> (max_iterations <= iteration st)%nat -> Q (Done (max_iterations_reply st))) ->
  forall st, I st -> Q (while_loop E weather_data user_query language st).
Proof.
  intros Hpass Hexit st.
  remember (max_iterations - iteration st)%nat as budget eqn:Hbudget.
  revert st Hbudget. induction budget as [budget IH] using lt_wf_ind.
  intros st Hbudget Hinv. rewrite while_loop_eq.
  destruct (iteration st <? max_iterations)%nat eqn:Hlt.
  - apply Nat.ltb_lt in Hlt. specialize (Hpass st Hinv Hlt).
    destruct (loop_body E weather_data user_query language st) as [st'|answer tr|e tr] eqn:Hbody;
      try exact Hpass.
    apply loop_body_iteration in Hbody.
    apply (IH (max_iterations - iteration st')%nat); [lia|reflexivity|exact Hpass].
  - apply Nat.ltb_ge in Hlt. apply Hexit; assumption.
Qed.

Lemma model_rounds_app (tr tr' : trace) :
  model_rounds (tr ++ tr') = (model_rounds tr + model_rounds tr')%nat.
Proof. unfold model_rounds. rewrite List.filter_app, length_app. reflexivity. Qed.

Lemma last_resolved_app (initial : json) (tr tr' : trace) :
  last_resolved initial (tr ++ tr') = last_resolved (last_resolved initial tr) tr'.
Proof. unfold last_resolved. apply fold_left_app. Qed.

Lemma guarded_app (fetched : bool) (tr tr' : trace) :
  guarded weather_data user_query language fetched tr ->
  (forall fetched', guarded weather_data user_query language fetched' tr') ->
  guarded weather_data user_query language fetched (tr ++ tr').
Proof.
  intros Htr Htr'. revert fetched Htr.
  induction tr as [|ev tr IH]; intros fetched Htr; simpl; [apply Htr'|].
  destruct ev; simpl in *; try (apply IH; exact Htr).
  destruct Htr as [Hguard Hrest]. split; [exact Hguard|apply IH; exact Hrest].
Qed.

Lemma fetches_only_rounds (evs : trace) : fetches_only evs -> model_rounds evs = 0%nat.
Proof.
  induction 1 as [|ev evs Hev _ IH]; [reflexivity|].
  destruct ev; try discriminate. exact IH.
Qed.

Lemma fetches_only_guarded (evs : trace) (fetched : bool) :
  fetches_only evs -> guarded weather_data user_query language fetched evs.
Proof.
  intros Hevs. revert fetched. induction Hevs as [|ev evs Hev _ IH]; intros fetched; [exact I|].
  destruct ev; try discriminate. simpl. apply IH.
Qed.

Lemma fetches_only_app (evs evs' : trace) :
  fetches_only evs -> fetches_only evs' -> fetches_only (evs ++ evs').
Proof. apply Forall_app_2. Qed.

Lemma dispatch_tool_call_spec (st : loop_state) (tc : tool_call) :
  match dispatch_tool_call E st tc with
  | Done st' =>
      iteration st' = iteration st /\ auto_fetch_weather st' = auto_fetch_weather st
      /\ exists extra, events st' = events st ++ extra /\ fetches_only extra
                       /\ final_weather_data st' = last_resolved (final_weather_data st) extra
  | Fail e tr => tr = events st
  end.
Proof.
  unfold dispatch_tool_call, fetch_weather.
  destruct (String.eqb (tc_name tc) "get_weather").
  - destruct (json_loads E (tc_arguments tc)) as [args|e]; [|reflexivity].
    destruct (dot_get args "location") as [location_name|e]; [|reflexivity].
    destruct (requests_get E (List.length (events st)) (weather_url E location_name))
      as [fetched|e] eqn:Hget; simpl;
      (split; [reflexivity|split; [reflexivity|]]);
      eexists; (split; [reflexivity|split; [repeat constructor|reflexivity]]).
  - split; [reflexivity|split; [reflexivity|]].
    exists []. rewrite app_nil_r. repeat split. constructor.
Qed.

Lemma dispatch_tool_calls_spec (tcs : list tool_call) (st : loop_state) :
  match dispatch_tool_calls E st tcs with
  | Done st' =>
      iteration st' = iteration st /\ auto_fetch_weather st' = auto_fetch_weather st
      /\ exists extra, events st' = events st ++ extra /\ fetches_only extra
                       /\ final_weather_data st' = last_resolved (final_weather_data st) extra
  | Fail e tr => exists extra, tr = events st ++ extra /\ fetches_only extra
  end.
Proof.
  revert st. induction tcs as [|tc tcs IH]; intros st; simpl.
  - split; [reflexivity|split; [reflexivity|]].
    exists []. rewrite app_nil_r. repeat split. constructor.
  - pose proof (dispatch_tool_call_spec st tc) as Hone.
    destruct (dispatch_tool_call E st tc) as [st1|e tr].
    + destruct Hone as (Hiter & Hauto & extra & Hevents & Hfetch & Hfinal).
      specialize (IH st1).
      destruct (dispatch_tool_calls E st1 tcs) as [st2|e tr].
      * destruct IH as (Hiter' & Hauto' & extra' & Hevents' & Hfetch' & Hfinal').
        split; [congruence|split; [congruence|]].
        exists (extra ++ extra'). rewrite Hevents', Hevents, app_assoc.
        split; [reflexivity|]. split; [apply fetches_only_app; assumption|].
        rewrite Hfinal', Hfinal, last_resolved_app. reflexivity.
      * destruct IH as (extra' & -> & Hfetch').
        exists (extra ++ extra'). rewrite Hevents, app_assoc.
        split; [reflexivity|apply fetches_only_app; assumption].
    + subst tr. exists []. rewrite app_nil_r. split; [reflexivity|constructor].
Qed.

Lemma finalize_spec (query : option string) (st : loop_state) (fetched : bool)
    (m : message) (tr : trace) :
  pass_spec weather_data query language st fetched tr 0
    (finalize E weather_data m (final_weather_data st) tr).
Proof.
  exists []. unfold finalize. rewrite app_nil_r.
  repeat case_match; simpl; repeat split.
Qed.

Lemma fallback_spec (st : loop_state) (fetched : bool) (m : message) (auto : bool)
    (tr : trace) :
  (iteration st = 0%nat -> fetched = false) ->
  pass_spec weather_data user_query language st fetched tr 0 (fallback E weather_data user_query language st m auto tr).
Proof.
  intros Hfirst. unfold fallback.
  destruct user_query as [q|] eqn:Hquery; [|apply finalize_spec].
  destruct (negb (String.eqb q "")) eqn:Hq; simpl; [|apply finalize_spec].
  destruct (negb (truthy weather_data) || (iteration st =? 0)%nat) eqn:Hcond; simpl;
    [|apply finalize_spec].
  assert (Some q = Some q /\ q <> "" /\ language = language
          /\ ((iteration st = 0%nat /\ fetched = false) \/ truthy weather_data = false))
    as Hguard.
  { split; [reflexivity|]. split.
    - apply negb_true_iff, String.eqb_neq in Hq. exact Hq.
    - split; [reflexivity|]. apply orb_true_iff in Hcond as [Hwd|Hiter].
      + right. apply negb_true_iff. exact Hwd.
      + left. apply Nat.eqb_eq in Hiter. auto. }
  unfold fetch_weather, finalize.
  repeat case_match; simplify_eq/=;
    eexists; (split; [rewrite <- ?app_assoc; simpl; reflexivity|]); simpl;
    repeat split; try apply Hguard; try reflexivity.
Qed.

Lemma react_spec (st : loop_state) (fetched : bool) (answer : result (list message))
    (auto : bool) (tr : trace) :
  (iteration st = 0%nat -> fetched = false) ->
  pass_spec weather_data user_query language st fetched tr 0 (react E weather_data user_query language st answer auto tr).
Proof.
  intros Hfirst. unfold react.
  destruct answer as [[|m rest]|e];
    [ exists []; rewrite app_nil_r; repeat split
    | | exists []; rewrite app_nil_r; repeat split ].
  destruct (requests_tools m && auto).
  - pose proof (dispatch_tool_calls_spec (default [] (tool_calls m))
                  {| messages := messages st ++ [AssistantMessage m];
                     iteration := iteration st;
                     final_weather_data := final_weather_data st;
                     auto_fetch_weather := auto;
                     events := tr |}) as Hdispatch.
    destruct (dispatch_tool_calls E _ _) as [st'|e tr']; simpl in Hdispatch.
    + destruct Hdispatch as (_ & _ & extra & Hevents & Hfetch & Hfinal).
      unfold pass_spec. exists extra. simpl. repeat split; try assumption.
      * apply fetches_only_rounds. exact Hfetch.
      * apply fetches_only_guarded. exact Hfetch.
    + destruct Hdispatch as (extra & -> & Hfetch).
      unfold pass_spec. exists extra. simpl. repeat split.
      * apply fetches_only_rounds. exact Hfetch.
      * apply fetches_only_guarded. exact Hfetch.
  - destruct (negb (requests_tools m)).
    + apply fallback_spec. exact Hfirst.
    + apply finalize_spec.
Qed.

Lemma loop_body_spec (st : loop_state) (fetched : bool) :
  (iteration st = 0%nat -> fetched = false) ->
  pass_spec weather_data user_query language st fetched (events st) 1
    (loop_body E weather_data user_query language st).
Proof.
  intros Hfirst. unfold loop_body, create_completion.
  destruct (chat_completions_create E (List.length (events st)) (messages st)
              (auto_fetch_weather st)) as [response|tool_error];
    [|destruct (contains "tool" (lower (exn_str E tool_error))
                || contains "function" (lower (exn_str E tool_error)));
      [destruct (chat_completions_create E _ (messages st) false) as [response|e]|]].
  all: match goal with
       | |- pass_spec _ _ _ _ _ _ _ (react _ _ _ _ ?st ?answer ?auto ?tr) =>
           destruct (react_spec st fetched answer auto tr Hfirst)
             as (extra & Htrace & Hrounds & Hguard & Hfinal)
       end.
  all: eexists; (split; [rewrite Htrace, <- ?app_assoc; simpl; reflexivity|]).
  all: repeat split; try assumption.
  all: unfold model_rounds in *; simpl; rewrite Hrounds; reflexivity.
Qed.

Lemma guarded_app_fetched (fetched : bool) (tr tr' : trace) :
  guarded weather_data user_query language fetched (tr ++ tr')
  <-> guarded weather_data user_query language fetched tr
      /\ guarded weather_data user_query language (fetched || has_fetch tr) tr'.
Proof.
  revert fetched. induction tr as [|ev tr IH]; intros fetched; simpl.
  - rewrite orb_false_r. tauto.
  - destruct ev; simpl; rewrite ?IH, ?orb_true_r; tauto.
Qed.

Lemma has_fetch_false (evs : trace) :
  has_fetch evs = false -> Forall (fun ev => is_fetch ev = false) evs.
Proof.
  induction evs as [|ev evs IH]; simpl; [constructor|].
  intros [Hev Hevs]%orb_false_iff. constructor; auto.
Qed.

Lemma while_loop_trace (tr : trace) (st : loop_state) :
  call_invariant weather_data user_query language tr st ->
  call_spec weather_data user_query language tr (while_loop E weather_data user_query language st).
Proof.
  apply while_loop_rule; clear st.
  - intros st (new & Hevents & Hrounds & Hbound & Hguard & Hfinal & Hfirst) Hlt.
    assert (iteration st = 0%nat -> has_fetch new = false) as Hfetched.
    { intros Hzero. rewrite (Hfirst Hzero). reflexivity. }
    destruct (loop_body_spec st (has_fetch new) Hfetched)
      as (extra & Htrace & Hextra & Hguard' & Hfinal').
    assert (guarded weather_data user_query language false (new ++ extra)) as Hall.
    { apply guarded_app_fetched. split; assumption. }
    destruct (loop_body E weather_data user_query language st) as [st'|answer tr'|e tr']
      eqn:Hbody; simpl in Htrace.
    + apply loop_body_iteration in Hbody.
      exists (new ++ extra). rewrite Htrace, Hevents, app_assoc.
      split; [reflexivity|]. rewrite model_rounds_app, Hrounds, Hextra, Hbody.
      split; [lia|]. split; [lia|]. split; [exact Hall|].
      split; [|lia]. rewrite Hfinal', Hfinal, last_resolved_app. reflexivity.
    + exists (new ++ extra). subst tr'. rewrite Hevents, app_assoc.
      split; [split; [reflexivity|]|].
      * rewrite Hfinal', Hfinal, last_resolved_app. reflexivity.
      * rewrite model_rounds_app, Hrounds, Hextra. split; [lia|exact Hall].
    + exists (new ++ extra). subst tr'. rewrite Hevents, app_assoc.
      split; [reflexivity|].
      rewrite model_rounds_app, Hrounds, Hextra. split; [lia|exact Hall].
  - intros st (new & Hevents & Hrounds & Hbound & Hguard & Hfinal & Hfirst) Hge.
    exists new. simpl. repeat split; try assumption. lia.
Qed.

Lemma entry_invariant (prompt : string) (auto : bool) (tr : trace) :
  call_invariant weather_data user_query language tr
    (entry_state language prompt weather_data auto tr).
Proof.
  exists []. simpl. rewrite app_nil_r. repeat split. unfold max_iterations. lia.
Qed.

(** The events a call adds to the trace. *)
Lemma get_ai_suggestions_trace (tr : trace) (auto : bool) :
  exists new,
    snd (get_ai_suggestions E weather_data user_query language tr auto) = tr ++ new
    /\ (model_rounds new <= max_iterations)%nat
    /\ guarded weather_data user_query language false new.
Proof.
  unfold get_ai_suggestions.
  destruct (build_prompt E weather_data user_query language) as [prompt|e].
  - destruct (while_loop_trace tr _ (entry_invariant prompt auto tr))
      as (new & Hout & Hrounds & Hguard).
    exists new.
    destruct (while_loop E weather_data user_query language _) as [[answer tr']|e tr'];
      simpl; intuition.
  - exists []. simpl. rewrite app_nil_r. repeat split. unfold model_rounds. simpl. lia.
Qed.

Lemma reaches_while_loop (st st' : loop_state) :
  reaches E weather_data user_query language st st' ->
  while_loop E weather_data user_query language st
  = while_loop E weather_data user_query language st'.
Proof.
  induction 1 as [st|st st1 st2 Hlt Hbody _ IH]; [reflexivity|].
  rewrite while_loop_eq, Hbody. apply Nat.ltb_lt in Hlt. rewrite Hlt. exact IH.
Qed.


Lemma while_loop_leaves (st : loop_state) :
  (iteration st < max_iterations)%nat ->
  while_loop E weather_data user_query language st
  = match loop_body E weather_data user_query language st with
    | Continue st' => while_loop E weather_data user_query language st'
    | Return answer tr => Done (answer, tr)
    | Raised e tr => Fail e tr
    end.
Proof. intros Hlt. rewrite while_loop_eq. apply Nat.ltb_lt in Hlt. rewrite Hlt. reflexivity. Qed.

(** A provider failure whose text mentions neither tools nor functions
    leaves the pass as it is raised. *)
Lemma provider_failure_escapes (st : loop_state) (e : exn) :
  chat_completions_create E (List.length (events st)) (messages st) (auto_fetch_weather st)
  = Raise e ->
  contains "tool" (lower (exn_str E e)) = false ->
  contains "function" (lower (exn_str E e)) = false ->
  loop_body E weather_data user_query language st
  = Raised e (events st ++ [EvCompletion false (messages st) (auto_fetch_weather st) (Raise e)]).
Proof.
  intros Hchat Htool Hfunction. unfold loop_body, create_completion.
  rewrite Hchat, Htool, Hfunction. reflexivity.
Qed.

(** Tool dispatch when the arguments decode. *)
Lemma dispatch_tool_call_done (st : loop_state) (tc : tool_call) :
  decodes E tc ->
  exists st', dispatch_tool_call E st tc = Done st'
              /\ forall entry, In entry (messages st) -> In entry (messages st').
Proof.
  intros Hdecodes. unfold dispatch_tool_call.
  destruct (String.eqb (tc_name tc) "get_weather") eqn:Hname; [|eauto].
  apply String.eqb_eq in Hname. destruct (Hdecodes Hname) as [fields ->]. simpl.
  destruct (fetch_weather E (events st) _) as [[fetched|e] tr];
    eexists; (split; [reflexivity|]); simpl; intros entry Hin; apply in_or_app; auto.
Qed.

Lemma dispatch_tool_calls_done (tcs : list tool_call) (st : loop_state) :
  Forall (decodes E) tcs ->
  exists st', dispatch_tool_calls E st tcs = Done st'
              /\ forall entry, In entry (messages st) -> In entry (messages st').
Proof.
  intros Hdecode. revert st. induction Hdecode as [|tc tcs Htc _ IH]; intros st; simpl.
  - eauto.
  - destruct (dispatch_tool_call_done st tc Htc) as (st1 & -> & Hkeep).
    destruct (IH st1) as (st2 & -> & Hkeep'). eauto.
Qed.






(** A pass in which the model asks for tools and the dispatch completes. *)
Lemma loop_body_dispatch (st st1 : loop_state) (m : message) (rest : list message) :
  auto_fetch_weather st = true ->
  chat_completions_create E (List.length (events st)) (messages st) true = Ok (m :: rest) ->
  requests_tools m = true ->
  dispatch_tool_calls E
    {| messages := messages st ++ [AssistantMessage m];
       iteration := iteration st;
       final_weather_data := final_weather_data st;
       auto_fetch_weather := true;
       events := events st ++ [EvCompletion false (messages st) true (Ok (m :: rest))] |}
    (default [] (tool_calls m)) = Done st1 ->
  loop_body E weather_data user_query language st
  = Continue {| messages := messages st1;
                iteration := iteration st + 1;
                final_weather_data := final_weather_data st1;
                auto_fetch_weather := true;
                events := events st1 |}.
Proof.
  intros Hauto Hchat Hasks Hdispatch. unfold loop_body, create_completion.
  rewrite Hauto, Hchat. simpl. rewrite Hasks. simpl. rewrite Hdispatch. reflexivity.
Qed.


End OrchestratorFacts.

Lemma while_loop_always_asks (E : environment) (weather_data : json)
    (user_query : option string) (language : string) (tr : trace) (st : loop_state) :
  always_requests_tools E ->
  auto_fetch_weather st = true ->
  (exists new, events st = tr ++ new /\ model_rounds new = iteration st
               /\ (iteration st <= max_iterations)%nat
               /\ final_weather_data st = last_resolved weather_data new) ->
  exists new,
    while_loop E weather_data user_query language st
    = Done ({| sg_content := Some max_iterations_content;
               sg_weather_data := last_resolved weather_data new |}, tr ++ new)
    /\ model_rounds new = max_iterations.
Proof.
  intros Halways Hauto Hinv.
  apply (while_loop_rule E weather_data user_query language
           (fun st => auto_fetch_weather st = true
                      /\ exists new, events st = tr ++ new /\ model_rounds new = iteration st
                                     /\ (iteration st <= max_iterations)%nat
                                     /\ final_weather_data st = last_resolved weather_data new));
    [| |split; assumption]; clear st Hauto Hinv.
  - intros st (Hauto & new & Hevents & Hrounds & Hbound & Hfinal) Hlt.
    destruct (Halways (List.length (events st)) (messages st))
      as (m & rest & Hchat & Hasks & Hdecode).
    destruct (dispatch_tool_calls_done E (default [] (tool_calls m))
                {| messages := messages st ++ [AssistantMessage m];
                   iteration := iteration st;
                   final_weather_data := final_weather_data st;
                   auto_fetch_weather := true;
                   events := events st ++ [EvCompletion false (messages st) true
                                             (Ok (m :: rest))] |} Hdecode)
      as (st1 & Hdispatch & _).
    pose proof (loop_body_spec E weather_data user_query language st false (fun _ => eq_refl))
      as (extra & Htrace & Hextra & _ & Hfinal').
    rewrite (loop_body_dispatch E weather_data user_query language st st1 m rest
               Hauto Hchat Hasks Hdispatch) in *.
    simpl in *. split; [reflexivity|].
    exists (new ++ extra). rewrite Htrace, Hevents, app_assoc.
    split; [reflexivity|]. rewrite model_rounds_app, Hrounds, Hextra.
    split; [lia|]. split; [lia|].
    rewrite Hfinal', Hfinal, last_resolved_app. reflexivity.
  - intros st (Hauto & new & Hevents & Hrounds & Hbound & Hfinal) Hge.
    exists new. unfold max_iterations_reply. rewrite Hevents, Hfinal.
    split; [reflexivity|lia].
Qed.

(** C1 (as amended).  Every call issues at most three model rounds, and
    once the prompt is built the call answers with a reply, never with an
    exception.  When tool calls are enabled and the model asks for a tool
    on every round with arguments that decode, the third round is the last
    one and the reply is the fixed maximum-iterations content with the
    payload of the latest successful fetch (the caller's weather data when
    no fetch succeeded). *)
Theorem orchestrator_round_bound (E : environment) (weather_data : json)
    (user_query : option string) (language : string) (tr : trace) (auto : bool) :
  exists new,
    snd (get_ai_suggestions E weather_data user_query language tr auto) = tr ++ new
    /\ (model_rounds new <= max_iterations)%nat
    /\ (is_ok (build_prompt E weather_data user_query language) = true ->
        is_ok (fst (get_ai_suggestions E weather_data user_query language tr auto)) = true)
    /\ (auto = true ->
        is_ok (build_prompt E weather_data user_query language) = true ->
        always_requests_tools E ->
        model_rounds new = max_iterations
        /\ fst (get_ai_suggestions E weather_data user_query language tr auto)
           = Ok {| sg_content := Some max_iterations_content;
                   sg_weather_data := last_resolved weather_data new |}).
Proof.
  destruct (get_ai_suggestions_trace E weather_data user_query language tr auto)
    as (new & Hsnd & Hrounds & _).
  exists new. split; [exact Hsnd|]. split; [exact Hrounds|].
  split; [apply get_ai_suggestions_ok|].
  intros -> Hprompt Halways. revert Hsnd. unfold get_ai_suggestions.
  destruct (build_prompt E weather_data user_query language) as [prompt|e]; [|discriminate].
  destruct (while_loop_always_asks E weather_data user_query language tr
              (entry_state language prompt weather_data true tr) Halways eq_refl)
    as (new' & -> & Hrounds').
  { exists []. simpl. rewrite app_nil_r. repeat split. unfold max_iterations. lia. }
  simpl. intros ->%app_inv_head. split; [exact Hrounds'|reflexivity].
Qed.

(** C2 (as amended).  When an exception leaves a pass of the loop, in
    whatever round, the call does not propagate it: the reply describes the
    failure and carries the weather data the caller passed in. *)
Theorem escaped_exception_reply (E : environment) (weather_data : json)
    (user_query : option string) (language : string) (tr : trace) (auto : bool)
    (prompt : string) (st : loop_state) (e : exn) (tr' : trace) :
  build_prompt E weather_data user_query language = Ok prompt ->
  reaches E weather_data user_query language
    (entry_state language prompt weather_data auto tr) st ->
  (iteration st < max_iterations)%nat ->
  loop_body E weather_data user_query language st = Raised e tr' ->
  get_ai_suggestions E weather_data user_query language tr auto
  = (Ok {| sg_content := Some ("Error getting AI suggestions: " +:+ exn_str E e);
           sg_weather_data := weather_data |}, tr').
Proof.
  intros Hprompt Hreach Hlt Hbody. unfold get_ai_suggestions. rewrite Hprompt.
  rewrite (reaches_while_loop _ _ _ _ _ _ Hreach), while_loop_leaves by exact Hlt.
  rewrite Hbody. reflexivity.
Qed.

(** C3 (as amended).  The location extractor runs only for a non-empty
    query, and then either in the first round, before any fetch of this
    call, or in a call that came without weather data. *)
Theorem extraction_is_guarded (E : environment) (weather_data : json)
    (user_query : option string) (language : string) (tr : trace) (auto : bool)
    (pre post : trace) (i : nat) (q l : string) (a : option string) :
  snd (get_ai_suggestions E weather_data user_query language tr auto)
  = tr ++ pre ++ EvExtract i q l a :: post ->
  user_query = Some q /\ q <> "" /\ l = language
  /\ ((i = 0%nat /\ Forall (fun ev => is_fetch ev = false) pre)
      \/ truthy weather_data = false).
Proof.
  intros Hsnd.
  destruct (get_ai_suggestions_trace E weather_data user_query language tr auto)
    as (new & Hnew & _ & Hguard).
  rewrite Hnew in Hsnd. apply app_inv_head in Hsnd. subst new.
  apply guarded_app_fetched in Hguard as [_ Hguard]. simpl in Hguard.
  destruct Hguard as [(Hquery & Hq & Hl & Hwhen) _].
  repeat split; try assumption.
  destruct Hwhen as [[Hfirst Hnone]|Hmissing]; [left|right; exact Hmissing].
  split; [exact Hfirst|apply has_fetch_false, Hnone].
Qed.


(** *** Examples *)

Lemma always_asks_requests_tools : always_requests_tools Demo.always_asks.
Proof.
  intros t msgs. eexists _, _. split; [reflexivity|]. split; [reflexivity|].
  repeat constructor. intros _. eexists. reflexivity.
Defined.

(** The rule at work: offered the tool, the model asks for Osaka's weather
    three times; the reply is the maximum-iterations content with Osaka's
    payload. *)
Lemma orchestrator_round_bound_witness :
  fst (get_ai_suggestions Demo.always_asks Demo.tokyo (Some "What about Osaka?")
         "en" [] true)
  = Ok {| sg_content := Some max_iterations_content; sg_weather_data := Demo.osaka |}.
Proof.
  destruct (orchestrator_round_bound Demo.always_asks Demo.tokyo (Some "What about Osaka?")
              "en" [] true) as (new & Hsnd & _ & _ & Hboundary).
  destruct Hboundary as [_ ->];
    [reflexivity|reflexivity|exact always_asks_requests_tools|].
  simpl in Hsnd. subst new. vm_compute. reflexivity.
Defined.

(** C1, the claim as written fails.  The model asks for a tool on every
    round, yet the call does not end with the maximum-iterations content:
    with arguments that are not JSON the decoding error ends the call in
    the first round, and with tool calls disabled the first answer is
    returned as it is. *)
Lemma always_asking_model_without_maximum_iterations :
  (forall t msgs tools, exists m,
      chat_completions_create Demo.garbled_arguments t msgs tools = Ok [m]
      /\ requests_tools m = true)
  /\ fst (get_ai_suggestions Demo.garbled_arguments Demo.tokyo (Some "What about Osaka?")
            "en" [] true)
     = Ok {| sg_content :=
               Some "Error getting AI suggestions: Expecting property name enclosed in double quotes";
             sg_weather_data := Demo.tokyo |}
  /\ (forall t msgs tools, exists m,
        chat_completions_create Demo.always_asks t msgs tools = Ok [m]
        /\ requests_tools m = true)
  /\ fst (get_ai_suggestions Demo.always_asks Demo.tokyo None "en" [] false)
     = Ok {| sg_content := None; sg_weather_data := Demo.tokyo |}
  /\ model_rounds (snd (get_ai_suggestions Demo.always_asks Demo.tokyo None "en" [] false))
     = 1%nat.
Proof.
  split; [|split; [|split; [|split]]].
  - intros t msgs tools. eexists. split; reflexivity.
  - vm_compute. reflexivity.
  - intros t msgs tools. eexists. split; reflexivity.
  - vm_compute. reflexivity.
  - vm_compute. reflexivity.
Qed.

(** C2, the claim as written fails.  Osaka's weather is fetched in the
    first round and the provider fails in the second one: the reply carries
    Tokyo's weather, the data the caller passed in, although the latest
    payload resolved is Osaka's. *)
Lemma failure_reply_drops_fetched_weather :
  fst (get_ai_suggestions Demo.fails_in_second_round Demo.tokyo (Some "What about Osaka?")
         "en" [] true)
  = Ok {| sg_content := Some "Error getting AI suggestions: rate limit exceeded";
          sg_weather_data := Demo.tokyo |}
  /\ last_resolved Demo.tokyo
       (snd (get_ai_suggestions Demo.fails_in_second_round Demo.tokyo
               (Some "What about Osaka?") "en" [] true))
     = Demo.osaka
  /\ Demo.osaka <> Demo.tokyo.
Proof. split; [|split]; [vm_compute; reflexivity|vm_compute; reflexivity|discriminate]. Qed.

(** C3, the claim as written fails.  In a call without weather data the
    model asks for Osaka's weather in the first round and answers in text
    in the second one; the extractor then runs in the second round
    (iteration 1), after the fetch. *)
Lemma extraction_in_second_round :
  last (snd (get_ai_suggestions Demo.asks_then_answers JNull (Some "What about Osaka?")
               "en" [] true))
  = Some (EvExtract 1 "What about Osaka?" "en" None)
  /\ has_fetch (removelast (snd (get_ai_suggestions Demo.asks_then_answers JNull
                                   (Some "What about Osaka?") "en" [] true))) = true.
Proof. split; vm_compute; reflexivity. Qed.

(** The provider fails in the second round, after Osaka's weather was
    fetched in the first one. *)
Lemma escaped_exception_witness :
  fst (get_ai_suggestions Demo.fails_in_second_round Demo.tokyo (Some "What about Osaka?")
         "en" [] true)
  = Ok {| sg_content := Some "Error getting AI suggestions: rate limit exceeded";
          sg_weather_data := Demo.tokyo |}.
Proof.
  erewrite (escaped_exception_reply Demo.fails_in_second_round Demo.tokyo
              (Some "What about Osaka?") "en" [] true _ _
              (LibraryError "rate limit exceeded")).
  - reflexivity.
  - reflexivity.
  - eapply reaches_round; [unfold max_iterations; simpl; lia|reflexivity|apply reaches_here].
  - unfold max_iterations. simpl. lia.
  - apply provider_failure_escapes; reflexivity.
Defined.

(** The extraction of the run above, in a call without weather data. *)
Lemma extraction_is_guarded_witness :
  Some "What about Osaka?" = Some "What about Osaka?"
  /\ "What about Osaka?" <> ""
  /\ "en" = "en"
  /\ ((1%nat = 0%nat
       /\ Forall (fun ev => is_fetch ev = false)
            (removelast (snd (get_ai_suggestions Demo.asks_then_answers JNull
                                (Some "What about Osaka?") "en" [] true))))
      \/ truthy JNull = false).
Proof.
  apply (extraction_is_guarded Demo.asks_then_answers JNull (Some "What about Osaka?")
           "en" [] true _ [] 1 "What about Osaka?" "en" None).
  vm_compute. reflexivity.
Defined.




(** * Further properties of the module *)

(** ** Further properties of the gateways *)

Lemma has_provider_fields_truthy (payload : json) :
  has_provider_fields payload = true -> truthy payload = true.
Proof.
  unfold has_provider_fields. destruct payload as [| | | | | |fields]; try discriminate.
  destruct fields; [discriminate|reflexivity].
Qed.

(** X1.  For a payload with every field of the provider's contract the snapshot
    is built, its location is the name and the country joined by a comma,
    the condition, icon, UV index and local time are the payload's values
    untouched, and [raw_data] is the payload. *)
Theorem format_weather_data_copies_fields (E : environment) (payload : json) :
  has_provider_fields payload = true ->
  exists snapshot,
    format_weather_data E payload = Ok (Some snapshot)
    /\ fw_location snapshot
       = py_str E (field (field payload "location") "name") +:+ ", "
         +:+ py_str E (field (field payload "location") "country")
    /\ fw_condition snapshot = field (field (field payload "current") "condition") "text"
    /\ fw_icon snapshot = field (field (field payload "current") "condition") "icon"
    /\ fw_uv_index snapshot = field (field payload "current") "uv"
    /\ fw_local_time snapshot = field (field payload "location") "localtime"
    /\ fw_raw_data snapshot = payload.
Proof.
  intros Hfields. unfold format_weather_data.
  rewrite (has_provider_fields_truthy payload Hfields). simpl.
  revert Hfields. unfold has_provider_fields. rewrite !has_keys_cons.
  unfold mbind, result_bind.
  step_subscripts; simpl; rewrite ?andb_false_r, ?andb_false_l; simpl;
    try discriminate.
  intros _. eexists. repeat split.
Qed.

Lemma format_weather_data_copies_fields_witness :
  exists snapshot,
    format_weather_data Demo.always_asks Demo.osaka = Ok (Some snapshot)
    /\ fw_location snapshot = "Osaka, Japan"
    /\ fw_raw_data snapshot = Demo.osaka.
Proof.
  destruct (format_weather_data_copies_fields Demo.always_asks Demo.osaka eq_refl)
    as (snapshot & Hformat & Hlocation & _ & _ & _ & _ & Hraw).
  exists snapshot. repeat split; assumption.
Defined.

(** ** Further properties of the speech gateway *)

Lemma ascii_lower_idempotent (c : ascii) : ascii_lower (ascii_lower c) = ascii_lower c.
Proof. destruct c as [[] [] [] [] [] [] [] []]; reflexivity. Qed.

Lemma lower_idempotent (s : string) : lower (lower s) = lower s.
Proof.
  induction s as [|c s IH]; [reflexivity|]. simpl.
  rewrite ascii_lower_idempotent, IH. reflexivity.
Qed.

Lemma lower_empty (s : string) : String.eqb (lower s) "" = String.eqb s "".
Proof. destruct s; reflexivity. Qed.

Lemma assoc_get_in {A} (k : string) (table : list (string * A)) (v : A) :
  assoc_get k table = Some v -> In v (map snd table).
Proof.
  induction table as [|[k' v'] table IH]; simpl; [discriminate|].
  destruct (String.eqb k k'); [intros [= ->]; left; reflexivity|].
  intros Hrest. right. apply IH, Hrest.
Qed.

(** X2.  The content type sent to the speech provider is always one of the MIME
    types of the table; for an ASCII format it does not depend on the letter
    case, and it is audio/wav when the lower-cased format is not a key of the
    table. *)
Theorem deepgram_content_type_table (audio_format : option string) :
  In (deepgram_content_type audio_format) (map snd content_type_map)
  /\ (forall f, audio_format = Some f -> ascii_only f = true ->
        deepgram_content_type (Some (lower f)) = deepgram_content_type (Some f))
  /\ (forall f, audio_format = Some f -> ascii_only f = true ->
        assoc_get (lower f) content_type_map = None ->
        deepgram_content_type audio_format = "audio/wav").
Proof.
  split; [|split].
  - unfold deepgram_content_type.
    destruct audio_format as [f|]; [|simpl; tauto].
    destruct (String.eqb f ""); [simpl; tauto|].
    destruct (assoc_get (lower f) content_type_map) as [mime|] eqn:Hget;
      [|simpl; tauto].
    simpl. apply (assoc_get_in _ _ _ Hget).
  - intros f _ _. unfold deepgram_content_type.
    rewrite lower_empty, lower_idempotent. reflexivity.
  - intros f -> _ Hnone. unfold deepgram_content_type.
    rewrite Hnone. destruct (String.eqb f ""); reflexivity.
Qed.

Lemma deepgram_content_type_table_witness :
  deepgram_content_type (Some "MP3") = deepgram_content_type (Some "mp3")
  /\ deepgram_content_type (Some "aiff") = "audio/wav".
Proof.
  split.
  - symmetry. apply (proj1 (proj2 (deepgram_content_type_table (Some "MP3"))) "MP3");
      reflexivity.
  - apply (proj2 (proj2 (deepgram_content_type_table (Some "aiff"))) "aiff");
      reflexivity.
Defined.

Lemma deepgram_response_transcript (text : string) (body : json) (returned : json) :
  deepgram_response 200 text (Ok body) = Ok returned
  <-> exists transcript,
        holds_transcript body transcript
        /\ returned = (if truthy transcript then transcript else JNull).
Proof.
  unfold deepgram_response, holds_transcript. simpl. unfold mbind, result_bind. split.
  - destruct body as [| | | | | |top]; try discriminate. simpl.
    destruct (dict_get "results" top) as [[| | | | | |results]|] eqn:Hresults;
      try discriminate. simpl.
    destruct (dict_get "channels" results) as [[| | | |[]|[|[| | | | | |channel] more]|]|]
      eqn:Hchannels; try discriminate. simpl.
    destruct (dict_get "alternatives" channel)
      as [[| | | |[]|[|[| | | | | |alternative] more']|]|] eqn:Halternatives;
      try discriminate. simpl.
    destruct (dict_get "transcript" alternative) as [transcript|] eqn:Htranscript;
      try discriminate.
    intros [= <-]. exists transcript. split; [|reflexivity].
    eexists _, _, _, _, _, _. repeat split; eassumption.
  - intros (transcript & (top & results & channel & more & alternative & more'
                          & -> & Hresults & Hchannels & Halternatives & Htranscript) & ->).
    simpl. rewrite Hresults. simpl. rewrite Hchannels. simpl.
    rewrite Halternatives. simpl. rewrite Htranscript. reflexivity.
Qed.


(** X3.  [transcribe_audio_deepgram] makes one request.  It returns exactly
    when the provider answered 200 with a body that holds
    [results.channels[0].alternatives[0].transcript], and what it returns
    is that transcript when it is truthy and [None] otherwise; whatever goes
    wrong leaves it as an [HTTPException] with status 500 and a detail that
    starts with the transcription-error text. *)
Theorem transcribe_audio_deepgram_outcomes (E : environment) (tr : trace)
    (audio : list Byte.byte) (audio_format : option string) (language : string) :
  (exists status,
      snd (transcribe_audio_deepgram E tr audio audio_format language)
      = tr ++ [EvTranscribe (deepgram_content_type audio_format) language status])
  /\ match fst (transcribe_audio_deepgram E tr audio audio_format language) with
     | Ok returned =>
         exists text body transcript,
           requests_post E (List.length tr) (deepgram_content_type audio_format)
             language audio = Ok (200%Z, text, Ok body)
           /\ holds_transcript body transcript
           /\ returned = (if truthy transcript then transcript else JNull)
     | Raise e => exists detail, e = HTTPException 500 ("Transcription error: " +:+ detail)
     end
  /\ forall text body transcript,
       requests_post E (List.length tr) (deepgram_content_type audio_format)
         language audio = Ok (200%Z, text, Ok body) ->
       holds_transcript body transcript ->
       fst (transcribe_audio_deepgram E tr audio audio_format language)
       = Ok (if truthy transcript then transcript else JNull).
Proof.
  split; [unfold transcribe_audio_deepgram; simpl;
          destruct (match requests_post E _ _ _ _ with Ok _ => _ | Raise _ => _ end);
          eauto|].
  split.
  - unfold transcribe_audio_deepgram.
    destruct (requests_post E (List.length tr) (deepgram_content_type audio_format)
                language audio) as [[[status_code text] body]|e]; simpl; [|eauto].
    destruct (deepgram_response status_code text body) as [returned|e] eqn:Hresponse;
      simpl; [|eauto].
    assert (status_code = 200%Z) as ->.
    { revert Hresponse. unfold deepgram_response.
      destruct (status_code =? 200)%Z eqn:Hstatus; [|discriminate].
      intros _. apply Z.eqb_eq, Hstatus. }
    destruct body as [body|e]; [|discriminate].
    apply deepgram_response_transcript in Hresponse as (transcript & Hholds & ->).
    eauto 6.
  - intros text body transcript Hpost Hholds.
    unfold transcribe_audio_deepgram. rewrite Hpost.
    assert (deepgram_response 200 text (Ok body)
            = Ok (if truthy transcript then transcript else JNull)) as ->; [|reflexivity].
    apply deepgram_response_transcript. eauto.
Qed.


Lemma transcribe_audio_deepgram_outcomes_witness :
  fst (transcribe_audio_deepgram Scene.silence [] [] (Some "mp3") "en") = Ok JNull.
Proof.
  apply (proj2 (proj2 (transcribe_audio_deepgram_outcomes Scene.silence [] [] (Some "mp3") "en"))
           "" (deepgram_body (JStr "")) (JStr "")).
  - reflexivity.
  - eexists _, _, _, _, _, _. repeat split.
Defined.

(** ** Properties of the transcription endpoint *)

Lemma split_not_nil (sep : ascii) (s : string) : split sep s <> [].
Proof.
  destruct s as [|c s]; simpl; [discriminate|].
  destruct (Ascii.eqb c sep); [discriminate|].
  destruct (split sep s); discriminate.
Qed.

Lemma split_join (sep : ascii) (s : string) :
  join (String sep EmptyString) (split sep s) = s.
Proof.
  induction s as [|c s IH]; [reflexivity|]. simpl.
  destruct (Ascii.eqb c sep) eqn:Hsep.
  - apply Ascii.eqb_eq in Hsep. subst c.
    pose proof (split_not_nil sep s) as Hnil.
    destruct (split sep s) as [|segment segments]; [contradiction|].
    simpl in *. rewrite IH. reflexivity.
  - pose proof (split_not_nil sep s) as Hnil.
    destruct (split sep s) as [|segment segments]; [contradiction|].
    simpl in *. destruct segments; simpl in *; rewrite <- IH; reflexivity.
Qed.

Lemma split_free (sep : ascii) (s : string) : free_of sep s = true -> split sep s = [s].
Proof.
  induction s as [|c s IH]; [reflexivity|]. simpl.
  intros [Hc Hs]%andb_true_iff. apply negb_true_iff in Hc. rewrite Hc, (IH Hs).
  reflexivity.
Qed.

Lemma last_cons_not_nil {A} (x : A) (l : list A) (d : A) :
  l <> [] -> List.last (x :: l) d = List.last l d.
Proof. destruct l; [contradiction|reflexivity]. Qed.

Lemma split_append (sep : ascii) (base extension : string) :
  free_of sep extension = true ->
  exists segment segments,
    split sep (base +:+ String sep extension) = segment :: segments
    /\ segments <> []
    /\ List.last segments EmptyString = extension.
Proof.
  intros Hfree. induction base as [|c base IH]; simpl.
  - rewrite Ascii.eqb_refl, (split_free sep extension Hfree).
    eexists _, _. split; [reflexivity|]. split; [discriminate|reflexivity].
  - destruct IH as (segment & segments & -> & Hsome & Hlast).
    destruct (Ascii.eqb c sep); eexists _, _; (split; [reflexivity|]).
    + split; [discriminate|]. rewrite last_cons_not_nil by exact Hsome. exact Hlast.
    + split; assumption.
Qed.

(** X4.  The audio format taken from the file name is the lower-cased text after
    its last dot (here for an ASCII extension); a name without a dot is
    taken whole, an empty name gives no format. *)
Theorem file_format_extension (base extension : string) :
  free_of "." extension = true ->
  ascii_only extension = true ->
  file_format (Some (base +:+ "." +:+ extension)) = Some (lower extension)
  /\ file_format (Some extension)
     = (if String.eqb extension "" then None else Some (lower extension)).
Proof.
  intros Hfree _. split.
  - unfold file_format.
    destruct (split_append "." base extension Hfree)
      as (segment & segments & Hsplit & Hsome & Hlast).
    assert (String.eqb (base +:+ "." +:+ extension) "" = false) as ->.
    { destruct base; reflexivity. }
    simpl negb. cbv iota.
    change (base +:+ "." +:+ extension) with (base +:+ String "." extension).
    rewrite Hsplit, last_cons_not_nil by exact Hsome. rewrite Hlast. reflexivity.
  - unfold file_format. destruct (String.eqb extension ""); [reflexivity|].
    simpl. rewrite (split_free "." extension Hfree). reflexivity.
Qed.

Lemma file_format_extension_witness :
  file_format (Some "voice.memo.MP3") = Some "mp3"
  /\ file_format (Some "recording") = Some "recording".
Proof.
  split.
  - apply (proj1 (file_format_extension "voice.memo" "MP3" eq_refl eq_refl)).
  - apply (proj2 (file_format_extension "" "recording" eq_refl eq_refl)).
Defined.

Lemma transcribe_failure_is_500 (E : environment) (tr : trace) (audio : list Byte.byte)
    (audio_format : option string) (language : string) (e : exn) :
  fst (transcribe_audio_deepgram E tr audio audio_format language) = Raise e ->
  exists text, e = HTTPException 500 ("Transcription error: " +:+ text).
Proof.
  unfold transcribe_audio_deepgram.
  destruct (match requests_post E (List.length tr) (deepgram_content_type audio_format)
                    language audio with
            | Ok (status_code, text, body) => deepgram_response status_code text body
            | Raise e0 => Raise e0
            end) as [transcript|e0]; simpl; [discriminate|].
  intros [= <-]. eauto.
Qed.

(** X5.  The transcription endpoint never touches the sessions and ignores the
    session id it is given.  Its answer either carries a truthy transcript
    with the success flag set, or no transcript, the flag cleared and the
    no-speech message; its only failure is the gateway's status 500. *)
Theorem transcribe_audio_answers (E : environment) (sv : server) (audio : list Byte.byte)
    (filename : option string) (language : string) (session_id : option string) :
  let out := transcribe_audio E sv audio filename language session_id in
  sessions (snd out) = sessions sv
  /\ out = transcribe_audio E sv audio filename language None
  /\ match fst out with
     | Ok response =>
         (ts_success response = true /\ truthy (ts_transcript response) = true
          /\ ts_message response = None)
         \/ (ts_success response = false /\ ts_transcript response = JNull
             /\ ts_message response = Some "No speech detected")
     | Raise e => exists text, e = HTTPException 500 ("Transcription error: " +:+ text)
     end.
Proof.
  intros out. subst out. unfold transcribe_audio.
  pose proof (transcribe_failure_is_500 E (observed sv) audio (file_format filename) language)
    as Hfailure.
  destruct (transcribe_audio_deepgram E (observed sv) audio (file_format filename) language)
    as [[transcript|e] tr]; simpl in *.
  - destruct (truthy transcript) eqn:Htruthy; simpl; repeat split; auto.
  - repeat split. apply Hfailure. reflexivity.
Qed.

(** ** Further properties of the session store *)

Lemma get_suggestions_dom (E : environment) (sv : server) (session_id query language : string) :
  dom (sessions (snd (get_suggestions E sv session_id query language))) = dom (sessions sv).
Proof.
  unfold get_suggestions.
  destruct (sessions sv !! session_id) as [s|] eqn:Hfound; [|reflexivity].
  assert (forall s', dom (<[session_id := s']> (sessions sv)) = dom (sessions sv)) as Hsame.
  { intros s'. apply dom_insert_lookup_L. rewrite Hfound. eauto. }
  destruct (get_ai_suggestions E (ss_weather_data s) (Some query) language (observed sv) true)
    as [[res|e] tr]; [|reflexivity].
  destruct (truthy (sg_weather_data res)
            && negb (py_eq E (sg_weather_data res) (ss_weather_data s))); simpl.
  - destruct (format_weather_data E (sg_weather_data res)); simpl; apply Hsame.
  - apply Hsame.
Qed.

Lemma handle_dom (E : environment) (sv : server) (r : request) :
  dom (sessions sv) ⊆ dom (sessions (handle E sv r))
  /\ (creates_session r = false -> dom (sessions (handle E sv r)) = dom (sessions sv)).
Proof.
  destruct r; simpl.
  - unfold get_translations. destruct (assoc_get language translations); split; auto.
  - unfold get_examples. destruct (String.eqb language "ja"); split; auto.
  - unfold get_weather.
    destruct (fetch_weather E (observed sv) (JStr location)) as [[w|e] tr]; split; auto.
  - rewrite get_suggestions_dom. split; auto.
  - split; [|discriminate]. unfold get_weather_with_suggestions.
    destruct (fetch_weather E (observed sv) (JStr location)) as [[w|e] tr1]; [|reflexivity].
    destruct (format_weather_data E w) as [formatted|e]; [|reflexivity].
    destruct (match session_id with
              | Some given =>
                  if negb (String.eqb given "") then (given, tr1)
                  else (uuid4 E (List.length tr1), tr1 ++ [EvUuid (uuid4 E (List.length tr1))])
              | None => (uuid4 E (List.length tr1), tr1 ++ [EvUuid (uuid4 E (List.length tr1))])
              end) as [sid tr2].
    destruct (get_ai_suggestions E w None language tr2 false) as [[res|e] tr3];
      simpl; apply dom_insert_subseteq.
  - unfold get_session. destruct (sessions sv !! session_id); split; auto.
  - unfold clear_chat. destruct (sessions sv !! session_id) as [s|] eqn:Hfound;
      [|split; auto].
    simpl. rewrite dom_insert_lookup_L by (rewrite Hfound; eauto). split; auto.
Qed.

(** X6.  No request to the translation, example, weather, suggestion or session
    endpoints removes a session: a session that exists still exists after
    any sequence of them. *)
Theorem sessions_are_never_removed (E : environment) (rs : list request) (sv : server)
    (session_id : string) :
  is_Some (sessions sv !! session_id) ->
  is_Some (sessions (serve E sv rs) !! session_id).
Proof.
  revert sv. induction rs as [|r rs IH]; intros sv Hfound; simpl; [exact Hfound|].
  apply IH. apply elem_of_dom. apply (proj1 (handle_dom E sv r)).
  apply elem_of_dom. exact Hfound.
Qed.

Lemma sessions_are_never_removed_witness :
  is_Some (sessions (serve Demo.asks_then_answers Demo.two_sessions
                       [ DeleteChat "a"; PostSuggestions "b" "What about Osaka?" "ja";
                         PostWeatherWithSuggestions "Tokyo" "en" None ]) !! "a").
Proof.
  apply (sessions_are_never_removed Demo.asks_then_answers _ Demo.two_sessions "a").
  eexists. reflexivity.
Defined.

(** X7.  Among those endpoints only weather-with-suggestions creates sessions:
    a sequence of other requests leaves the set of session ids as it was. *)
Theorem only_weather_with_suggestions_creates (E : environment) (rs : list request)
    (sv : server) :
  forallb (fun r => negb (creates_session r)) rs = true ->
  dom (sessions (serve E sv rs)) = dom (sessions sv).
Proof.
  revert sv. induction rs as [|r rs IH]; intros sv Hnone; simpl; [reflexivity|].
  simpl in Hnone. apply andb_true_iff in Hnone as [Hr Hrs].
  rewrite (IH _ Hrs). apply (proj2 (handle_dom E sv r)).
  apply negb_true_iff. exact Hr.
Qed.

Lemma only_weather_with_suggestions_creates_witness :
  dom (sessions (serve Demo.asks_then_answers Demo.two_sessions
                   [ PostSuggestions "a" "What about Osaka?" "en"; DeleteChat "b";
                     GetSession "c"; PostWeather "Tokyo"; PostSuggestions "c" "Hello" "en" ]))
  = dom (sessions Demo.two_sessions).
Proof.
  apply (only_weather_with_suggestions_creates Demo.asks_then_answers _ Demo.two_sessions).
  reflexivity.
Defined.

(** X8.  A suggestion call leaves every other session as it was and never
    changes the language stored in the session it addresses; for an unknown
    id it fails with status 404 and changes nothing, not even the trace. *)
Theorem get_suggestions_frame (E : environment) (sv : server)
    (session_id query language : string) :
  let out := get_suggestions E sv session_id query language in
  (forall other, other <> session_id ->
     sessions (snd out) !! other = sessions sv !! other)
  /\ (forall s s', sessions sv !! session_id = Some s ->
        sessions (snd out) !! session_id = Some s' ->
        ss_language s' = ss_language s)
  /\ (sessions sv !! session_id = None ->
      out = (Raise (HTTPException 404 "Session not found. Please fetch weather first."), sv)).
Proof.
  intros out. subst out. unfold get_suggestions.
  destruct (sessions sv !! session_id) as [s|] eqn:Hfound.
  - destruct (get_ai_suggestions E (ss_weather_data s) (Some query) language (observed sv) true)
      as [[res|e] tr]; simpl.
    + destruct (truthy (sg_weather_data res)
                && negb (py_eq E (sg_weather_data res) (ss_weather_data s))); simpl;
        [destruct (format_weather_data E (sg_weather_data res)); simpl|];
        (split; [intros other Hother; apply lookup_insert_ne; congruence|]);
        (split; [|discriminate]);
        intros s0 s' [= <-]; rewrite lookup_insert_eq; intros [= <-];
        destruct (String.eqb query ""); reflexivity.
    + split; [reflexivity|]. split; [|discriminate].
      intros s0 s' [= <-]. rewrite Hfound. intros [= <-]. reflexivity.
  - split; [reflexivity|]. split; [discriminate|reflexivity].
Qed.

Lemma get_suggestions_frame_witness :
  sessions (snd (get_suggestions Demo.asks_then_answers Demo.two_sessions "a"
                   "What about Osaka?" "en")) !! "b"
  = sessions Demo.two_sessions !! "b".
Proof.
  apply (proj1 (get_suggestions_frame Demo.asks_then_answers Demo.two_sessions "a"
                  "What about Osaka?" "en")).
  discriminate.
Defined.

(** X9.  When a suggestion call succeeds, the stored history is the old one
    followed by the user turn and the assistant turn carrying the returned
    suggestion (unchanged for an empty query), the history in the answer is
    the stored one, and the weather in the answer is reported as updated
    exactly when the session's weather data was replaced. *)
Theorem get_suggestions_response (E : environment) (sv : server)
    (session_id query language : string) (s : session) (response : suggestions_response) :
  sessions sv !! session_id = Some s ->
  fst (get_suggestions E sv session_id query language) = Ok response ->
  exists s',
    sessions (snd (get_suggestions E sv session_id query language)) !! session_id = Some s'
    /\ ss_chat_history s'
       = (if String.eqb query "" then ss_chat_history s
          else Some (default [] (ss_chat_history s)
                     ++ [ {| turn_role := "user"; turn_content := Some query |};
                          {| turn_role := "assistant";
                             turn_content := rs_suggestion response |} ]))
    /\ rs_chat_history response = default [] (ss_chat_history s')
    /\ (if rs_weather_updated response
        then rs_weather response = ss_formatted_weather s'
             /\ is_Some (rs_weather response)
             /\ truthy (ss_weather_data s') = true
             /\ py_eq E (ss_weather_data s') (ss_weather_data s) = false
        else rs_weather response = None
             /\ ss_weather_data s' = ss_weather_data s
             /\ ss_formatted_weather s' = ss_formatted_weather s).
Proof.
  intros Hfound. unfold get_suggestions. rewrite Hfound.
  destruct (get_ai_suggestions E (ss_weather_data s) (Some query) language (observed sv) true)
    as [[res|e] tr]; simpl; [|discriminate].
  destruct (truthy (sg_weather_data res)
            && negb (py_eq E (sg_weather_data res) (ss_weather_data s))) eqn:Hchanged; simpl.
  - apply andb_true_iff in Hchanged as [Htruthy Hdiffers%negb_true_iff].
    destruct (format_weather_data E (sg_weather_data res)) as [formatted|e]; simpl;
      [|discriminate].
    intros [= <-]. rewrite lookup_insert_eq. eexists. split; [reflexivity|].
    destruct (String.eqb query ""); simpl; repeat split; eauto.
  - intros [= <-]. rewrite lookup_insert_eq. eexists. split; [reflexivity|].
    destruct (String.eqb query ""); simpl; repeat split; eauto.
Qed.

Lemma get_suggestions_response_witness :
  exists s',
    sessions (snd (get_suggestions Demo.asks_then_answers Demo.two_sessions "b"
                     "What about Osaka?" "ja")) !! "b" = Some s'
    /\ ss_chat_history s'
       = Some [ {| turn_role := "user"; turn_content := Some "What about Osaka?" |};
                {| turn_role := "assistant"; turn_content := Some "Take an umbrella." |} ].
Proof.
  destruct (get_suggestions_response Demo.asks_then_answers Demo.two_sessions "b"
              "What about Osaka?" "ja"
              {| ss_weather_data := Demo.osaka; ss_chat_history := Some [];
                 ss_language := "ja"; ss_formatted_weather := None |}
              {| rs_suggestion := Some "Take an umbrella.";
                 rs_chat_history :=
                   [ {| turn_role := "user"; turn_content := Some "What about Osaka?" |};
                     {| turn_role := "assistant";
                        turn_content := Some "Take an umbrella." |} ];
                 rs_weather := None;
                 rs_weather_updated := false |})
    as (s' & Hfound & Hhistory & _).
  - reflexivity.
  - vm_compute. reflexivity.
  - exists s'. split; [exact Hfound|exact Hhistory].
Defined.

Lemma format_weather_data_accepts (E : environment) (payload : json) :
  has_provider_fields payload = true -> is_ok (format_weather_data E payload) = true.
Proof.
  intros Hfields. unfold format_weather_data.
  assert (truthy payload = true) as ->.
  { revert Hfields. unfold has_provider_fields.
    destruct payload as [| | | | | |fields]; try discriminate.
    destruct fields; [discriminate|reflexivity]. }
  simpl. revert Hfields. unfold has_provider_fields. rewrite !has_keys_cons.
  unfold mbind, result_bind.
  step_subscripts; simpl; rewrite ?andb_false_r, ?andb_false_l; simpl;
    try discriminate. reflexivity.
Qed.

(** X10.  A suggestion call that raises records no exchange and keeps the
    formatted weather and the language; the weather data is either kept or
    already replaced by a payload that lacks a field of the contract. *)
Theorem get_suggestions_failure_records_nothing (E : environment) (sv : server)
    (session_id query language : string) (s s' : session) (e : exn) :
  sessions sv !! session_id = Some s ->
  fst (get_suggestions E sv session_id query language) = Raise e ->
  sessions (snd (get_suggestions E sv session_id query language)) !! session_id = Some s' ->
  ss_chat_history s' = ss_chat_history s
  /\ ss_formatted_weather s' = ss_formatted_weather s
  /\ ss_language s' = ss_language s
  /\ (ss_weather_data s' = ss_weather_data s
      \/ (truthy (ss_weather_data s') = true
          /\ has_provider_fields (ss_weather_data s') = false)).
Proof.
  intros Hfound. unfold get_suggestions. rewrite Hfound.
  destruct (get_ai_suggestions E (ss_weather_data s) (Some query) language (observed sv) true)
    as [[res|e0] tr]; simpl.
  - destruct (truthy (sg_weather_data res)
              && negb (py_eq E (sg_weather_data res) (ss_weather_data s))) eqn:Hchanged; simpl;
      [|discriminate].
    destruct (format_weather_data E (sg_weather_data res)) as [formatted|e0] eqn:Hformat; simpl;
      [discriminate|].
    intros _. rewrite lookup_insert_eq. intros [= <-]. simpl.
    repeat split. right.
    apply andb_true_iff in Hchanged as [Htruthy _]. split; [exact Htruthy|].
    destruct (has_provider_fields (sg_weather_data res)) eqn:Hfields; [|reflexivity].
    pose proof (format_weather_data_accepts E _ Hfields) as Hok.
    rewrite Hformat in Hok. discriminate.
  - intros _. rewrite Hfound. intros [= <-]. repeat split. left. reflexivity.
Qed.

Lemma get_suggestions_failure_witness :
  exists s',
    sessions (snd (get_suggestions Scene.partial_provider Demo.two_sessions "a"
                     "What about Osaka?" "en")) !! "a" = Some s'
    /\ ss_chat_history s'
       = Some [ {| turn_role := "user"; turn_content := Some "What should I wear?" |};
                {| turn_role := "assistant"; turn_content := Some "A light jacket." |} ]
    /\ ss_weather_data s' = Scene.osaka_without_temp_f.
Proof.
  eexists. split; [vm_compute; reflexivity|].
  split; [|reflexivity].
  refine (proj1 (get_suggestions_failure_records_nothing Scene.partial_provider
                   Demo.two_sessions "a" "What about Osaka?" "en"
                   {| ss_weather_data := Demo.tokyo;
                      ss_chat_history :=
                        Some [ {| turn_role := "user";
                                  turn_content := Some "What should I wear?" |};
                               {| turn_role := "assistant";
                                  turn_content := Some "A light jacket." |} ];
                      ss_language := "en"; ss_formatted_weather := None |}
                   _ (KeyError "temp_f") _ _ _)).
  - reflexivity.
  - vm_compute. reflexivity.
  - vm_compute. reflexivity.
Defined.

(** X11.  The weather-with-suggestions endpoint either fails and leaves the
    sessions as they were (with status 400 when the fetch failed), or
    returns the formatted weather under the given id (a fresh one when none
    or an empty one is given) and [get_session] on that id returns the new
    session: the fetched data, an empty history, the requested language. *)
Theorem weather_with_suggestions_all_or_nothing (E : environment) (sv : server)
    (location language : string) (session_id : option string) :
  match fst (get_weather_with_suggestions E sv location language session_id) with
  | Raise e =>
      sessions (snd (get_weather_with_suggestions E sv location language session_id))
      = sessions sv
      /\ (is_ok (fst (fetch_weather E (observed sv) (JStr location))) = true
          \/ exists text, e = HTTPException 400 ("Error fetching weather: " +:+ text))
  | Ok response =>
      exists fetched,
        fst (fetch_weather E (observed sv) (JStr location)) = Ok fetched
        /\ format_weather_data E fetched = Ok (rw_weather response)
        /\ rw_session_id response
           = (match session_id with
              | Some given =>
                  if String.eqb given "" then uuid4 E (S (List.length (observed sv)))
                  else given
              | None => uuid4 E (S (List.length (observed sv)))
              end)
        /\ get_session
             (snd (get_weather_with_suggestions E sv location language session_id))
             (rw_session_id response)
           = (Ok {| ss_weather_data := fetched;
                    ss_chat_history := Some [];
                    ss_language := language;
                    ss_formatted_weather := None |},
              snd (get_weather_with_suggestions E sv location language session_id))
  end.
Proof.
  unfold get_weather_with_suggestions, fetch_weather.
  destruct (requests_get E (List.length (observed sv)) (weather_url E (JStr location)))
    as [fetched|e]; simpl; [|split; [reflexivity|right; eauto]].
  pose proof (format_weather_data_ok_fields E fetched) as Hshape.
  destruct (format_weather_data E fetched) as [formatted|e] eqn:Hformat; simpl;
    [|split; [reflexivity|left; reflexivity]].
  specialize (Hshape eq_refl).
  assert (forall tr2, is_ok (fst (get_ai_suggestions E fetched None language tr2 false)) = true)
    as Hok.
  { intros tr2. apply get_ai_suggestions_ok, build_prompt_ok, Hshape. }
  rewrite length_app. simpl. rewrite Nat.add_comm. simpl.
  destruct session_id as [given|]; [destruct (String.eqb given "")|]; simpl.
  all: match goal with
       | |- context [get_ai_suggestions _ _ _ _ ?tr2 _] =>
           specialize (Hok tr2);
           destruct (get_ai_suggestions _ _ _ _ tr2 _) as [[res|e] tr3]; [|discriminate]
       end.
  all: simpl; exists fetched; repeat split.
  all: try exact Hformat.
  all: unfold get_session; simpl; rewrite lookup_insert_eq; reflexivity.
Qed.

(** X12.  Clearing a chat twice leaves the server as clearing it once; for an
    unknown id the endpoint fails with status 404 and changes nothing. *)
Theorem clear_chat_idempotent (sv : server) (session_id : string) :
  snd (clear_chat (snd (clear_chat sv session_id)) session_id) = snd (clear_chat sv session_id)
  /\ (sessions sv !! session_id = None ->
      clear_chat sv session_id = (Raise (HTTPException 404 "Session not found"), sv)).
Proof.
  unfold clear_chat.
  destruct (sessions sv !! session_id) as [s|] eqn:Hfound; simpl.
  - rewrite lookup_insert_eq. simpl. rewrite insert_insert_eq. split; [reflexivity|discriminate].
  - rewrite Hfound. split; reflexivity.
Qed.

Lemma clear_chat_idempotent_witness :
  clear_chat Demo.two_sessions "c"
  = (Raise (HTTPException 404 "Session not found"), Demo.two_sessions).
Proof. apply (proj2 (clear_chat_idempotent Demo.two_sessions "c")). reflexivity. Defined.

Lemma handle_reads_only (E : environment) (sv : server) (r : request) :
  reads_only r = true -> sessions (handle E sv r) = sessions sv.
Proof.
  destruct r; simpl; try discriminate; intros _.
  - unfold get_translations. destruct (assoc_get language translations); reflexivity.
  - unfold get_examples. destruct (String.eqb language "ja"); reflexivity.
  - unfold get_weather.
    destruct (fetch_weather E (observed sv) (JStr location)) as [[w|e] tr]; reflexivity.
  - unfold get_session. destruct (sessions sv !! session_id); reflexivity.
Qed.

(** X22.  The translation, example, weather and session-read endpoints change
    no session: after any sequence of such requests every session, with its
    weather data, history and language, is as it was. *)
Theorem read_only_requests_keep_sessions (E : environment) (rs : list request)
    (sv : server) :
  forallb reads_only rs = true ->
  sessions (serve E sv rs) = sessions sv.
Proof.
  revert sv. induction rs as [|r rs IH]; intros sv Hreads; simpl; [reflexivity|].
  simpl in Hreads. apply andb_true_iff in Hreads as [Hr Hrs].
  rewrite (IH _ Hrs). apply handle_reads_only, Hr.
Qed.

Lemma read_only_requests_keep_sessions_witness :
  sessions (serve Demo.asks_then_answers Demo.two_sessions
              [ PostWeather "Osaka"; GetSession "a"; GetExamples "fr";
                GetTranslations "ja"; GetSession "c" ])
  = sessions Demo.two_sessions.
Proof.
  apply (read_only_requests_keep_sessions Demo.asks_then_answers _ Demo.two_sessions).
  reflexivity.
Defined.

(** ** Further properties of the orchestrator *)

Section RequestFacts.
Context (E : environment) (language : string).

Lemma allowed_after_app (allowed : bool) (evs evs' : trace) :
  allowed_after allowed (evs ++ evs') = allowed_after (allowed_after allowed evs) evs'.
Proof. unfold allowed_after. apply fold_left_app. Qed.

Lemma allowed_after_false (evs : trace) : allowed_after false evs = false.
Proof.
  induction evs as [|ev evs IH]; [reflexivity|].
  destruct ev; simpl; exact IH.
Qed.

Lemma quiet_allowed_after (allowed : bool) (evs : trace) :
  quiet evs -> allowed_after allowed evs = allowed.
Proof.
  induction 1 as [|ev evs Hev _ IH]; [reflexivity|].
  destruct ev; try discriminate; exact IH.
Qed.

Lemma quiet_requests_follow (evs : trace) (allowed : bool) (pending : option (list chat_msg)) :
  quiet evs -> requests_follow E language allowed pending evs.
Proof.
  intros Hquiet. revert pending.
  induction Hquiet as [|ev evs Hev _ IH]; intros pending; [exact I|].
  destruct ev; try discriminate; simpl; apply IH.
Qed.

Lemma fetches_only_quiet (evs : trace) : fetches_only evs -> quiet evs.
Proof.
  induction 1 as [|ev evs Hev _ IH]; constructor; [|exact IH].
  destruct ev; try discriminate; reflexivity.
Qed.

Lemma requests_follow_app (evs evs' : trace) (allowed : bool)
    (pending : option (list chat_msg)) :
  requests_follow E language allowed pending evs ->
  (forall pending', requests_follow E language (allowed_after allowed evs) pending' evs') ->
  requests_follow E language allowed pending (evs ++ evs').
Proof.
  revert allowed pending.
  induction evs as [|ev evs IH]; intros allowed pending Hevs Hevs'; simpl; [apply Hevs'|].
  destruct ev as [[|] msgs with_tools answer| | | |]; simpl in *;
    try (apply IH; assumption).
  - destruct Hevs as (-> & Hpending & Hhead & Hrest). repeat split; try assumption.
    apply IH; [exact Hrest|]. rewrite andb_false_r in Hevs'. exact Hevs'.
  - destruct Hevs as (Hallowed & Hhead & Hrest). repeat split; try assumption.
    apply IH; assumption.
Qed.

Lemma requests_follow_split (evs evs' : trace) (allowed : bool)
    (pending : option (list chat_msg)) :
  requests_follow E language allowed pending (evs ++ evs') ->
  exists pending', requests_follow E language (allowed_after allowed evs) pending' evs'.
Proof.
  revert allowed pending.
  induction evs as [|ev evs IH]; intros allowed pending Hall; simpl in *; [eauto|].
  destruct ev as [[|] msgs with_tools answer| | | |]; simpl in *;
    try (eapply IH; eassumption).
  - destruct Hall as (-> & _ & _ & Hrest). rewrite andb_false_r. eapply IH, Hrest.
  - destruct Hall as (_ & _ & Hrest). eapply IH, Hrest.
Qed.

Lemma requests_follow_disabled (evs : trace) (pending : option (list chat_msg)) :
  requests_follow E language false pending evs ->
  Forall (fun ev => offers_tools ev = false) evs.
Proof.
  revert pending. induction evs as [|ev evs IH]; intros pending Hevs; [constructor|].
  destruct ev as [[|] msgs with_tools answer| | | |]; simpl in *;
    try (constructor; [reflexivity|eapply IH; eassumption]).
  - destruct Hevs as (-> & _ & _ & Hrest). constructor; [reflexivity|eapply IH, Hrest].
  - destruct Hevs as (Hallowed & _ & Hrest). constructor; [|eapply IH, Hrest].
    simpl. destruct with_tools; [|reflexivity]. discriminate (Hallowed eq_refl).
Qed.

Lemma requests_follow_headed (evs : trace) (allowed : bool)
    (pending : option (list chat_msg)) (retry : bool) (msgs : list chat_msg)
    (with_tools : bool) (answer : result (list message)) :
  requests_follow E language allowed pending evs ->
  In (EvCompletion retry msgs with_tools answer) evs ->
  headed language msgs.
Proof.
  revert allowed pending.
  induction evs as [|ev evs IH]; intros allowed pending Hevs Hin; [destruct Hin|].
  destruct Hin as [->|Hin].
  - destruct retry; simpl in Hevs; tauto.
  - destruct ev as [[|] msgs' with_tools' answer'| | | |]; simpl in Hevs;
      try (eapply IH; eassumption).
    + destruct Hevs as (_ & _ & _ & Hrest). eapply IH; eassumption.
    + destruct Hevs as (_ & _ & Hrest). eapply IH; eassumption.
Qed.

Lemma requests_follow_retry (pre post : trace) (allowed : bool)
    (pending : option (list chat_msg)) (msgs : list chat_msg) (with_tools : bool)
    (answer : result (list message)) :
  requests_follow E language allowed pending
    (pre ++ EvCompletion true msgs with_tools answer :: post) ->
  with_tools = false
  /\ ((pre = [] /\ pending = Some msgs)
      \/ exists pre' offered e,
           pre = pre' ++ [EvCompletion false msgs offered (Raise e)]
           /\ mentions_tools E e = true).
Proof.
  revert allowed pending.
  induction pre as [|ev pre IH]; intros allowed pending Hall; simpl in Hall.
  - destruct Hall as (-> & -> & _). split; [reflexivity|]. left. split; reflexivity.
  - assert (forall allowed' pending',
              requests_follow E language allowed' pending'
                (pre ++ EvCompletion true msgs with_tools answer :: post) ->
              (pending' = None \/
               exists offered e, ev = EvCompletion false msgs offered (Raise e)
                                 /\ mentions_tools E e = true) ->
              with_tools = false
              /\ ((ev :: pre = [] /\ pending = Some msgs)
                  \/ exists pre' offered e,
                       ev :: pre = pre' ++ [EvCompletion false msgs offered (Raise e)]
                       /\ mentions_tools E e = true)) as Hstep.
    { intros allowed' pending' Hrest Hpending.
      destruct (IH _ _ Hrest) as (-> & [[-> Hsome]|(pre' & offered & e & -> & Hmentions)]).
      - split; [reflexivity|]. right.
        destruct Hpending as [->|(offered & e & -> & Hmentions)]; [discriminate|].
        exists [], offered, e. split; [reflexivity|exact Hmentions].
      - split; [reflexivity|]. right.
        exists (ev :: pre'), offered, e. split; [reflexivity|exact Hmentions]. }
    destruct ev as [[|] msgs' with_tools' answer'| | | |]; simpl in Hall;
      try (eapply Hstep; [eassumption|left; reflexivity]).
    + destruct Hall as (_ & _ & _ & Hrest). eapply Hstep; [exact Hrest|left; reflexivity].
    + destruct Hall as (_ & _ & Hrest).
      destruct (IH _ _ Hrest) as (-> & [[-> Hsome]|(pre' & offered & e & -> & Hmentions)]).
      * split; [reflexivity|]. right.
        destruct answer' as [choices|e]; [discriminate|].
        destruct (mentions_tools E e) eqn:Hmentions; [|discriminate].
        injection Hsome as ->.
        exists [], with_tools', e. split; [reflexivity|exact Hmentions].
      * split; [reflexivity|]. right.
        exists (EvCompletion false msgs' with_tools' answer' :: pre'), offered, e.
        split; [reflexivity|exact Hmentions].
Qed.

Lemma requests_follow_count (evs : trace) (allowed : bool)
    (pending : option (list chat_msg)) :
  requests_follow E language allowed pending evs ->
  (List.length (List.filter is_completion evs)
   <= 2 * model_rounds evs + match pending with Some _ => 1 | None => 0 end)%nat.
Proof.
  revert allowed pending.
  induction evs as [|ev evs IH]; intros allowed pending Hevs;
    [unfold model_rounds; simpl; lia|].
  destruct ev as [[|] msgs with_tools answer| | | |]; unfold model_rounds in *; simpl in *.
  - destruct Hevs as (_ & -> & _ & Hrest). specialize (IH _ _ Hrest). simpl in IH. lia.
  - destruct Hevs as (_ & _ & Hrest). specialize (IH _ _ Hrest).
    destruct (match answer with
              | Ok _ => None
              | Raise e => if mentions_tools E e then Some msgs else None
              end); lia.
  - specialize (IH _ _ Hevs). simpl in IH. destruct pending; lia.
  - specialize (IH _ _ Hevs). simpl in IH. destruct pending; lia.
  - specialize (IH _ _ Hevs). simpl in IH. destruct pending; lia.
  - specialize (IH _ _ Hevs). simpl in IH. destruct pending; lia.
Qed.

End RequestFacts.

Section CallRequests.
Context (E : environment) (weather_data : json) (user_query : option string)
  (language : string).

Lemma dispatch_tool_calls_messages (tcs : list tool_call) (st st' : loop_state) :
  dispatch_tool_calls E st tcs = Done st' ->
  exists results, messages st' = messages st ++ results.
Proof.
  revert st. induction tcs as [|tc tcs IH]; intros st; simpl.
  - intros [= <-]. exists []. rewrite app_nil_r. reflexivity.
  - destruct (dispatch_tool_call E st tc) as [st1|e tr] eqn:Hone; [|discriminate].
    intros Hrest. destruct (IH _ Hrest) as [results ->].
    revert Hone. unfold dispatch_tool_call.
    destruct (String.eqb (tc_name tc) "get_weather");
      [|intros [= <-]; eauto].
    destruct (json_loads E (tc_arguments tc)) as [args|e]; [|discriminate].
    destruct (dot_get args "location") as [location_name|e]; [|discriminate].
    destruct (fetch_weather E (events st) location_name) as [[fetched|e] tr];
      intros [= <-]; simpl; rewrite <- app_assoc; eauto.
Qed.

Lemma headed_app (msgs extra : list chat_msg) :
  headed language msgs -> headed language (msgs ++ extra).
Proof. intros (prompt & rest & ->). exists prompt, (rest ++ extra). reflexivity. Qed.

(** What follows the provider's answer makes no request, and a pass that
    continues keeps the system instruction at the head of the messages. *)
Lemma react_quiet (st : loop_state) (answer : result (list message)) (auto : bool)
    (tr : trace) :
  headed language (messages st) ->
  exists extra,
    trace_of (react E weather_data user_query language st answer auto tr) = tr ++ extra
    /\ quiet extra
    /\ match react E weather_data user_query language st answer auto tr with
       | Continue st' => auto_fetch_weather st' = auto /\ headed language (messages st')
       | _ => True
       end.
Proof.
  intros Hhead. unfold react.
  destruct answer as [[|m rest]|e];
    [ exists []; rewrite app_nil_r; repeat split; constructor
    | | exists []; rewrite app_nil_r; repeat split; constructor ].
  assert (forall final,
            exists extra,
              trace_of (finalize E weather_data m final tr) = tr ++ extra
              /\ quiet extra
              /\ match finalize E weather_data m final tr with
                 | Continue st' => auto_fetch_weather st' = auto
                                   /\ headed language (messages st')
                 | _ => True
                 end) as Hfinalize.
  { intros final. exists []. rewrite app_nil_r. unfold finalize.
    repeat case_match; simpl; repeat split; constructor. }
  destruct (requests_tools m && auto).
  - pose proof (dispatch_tool_calls_spec E (default [] (tool_calls m))
                  {| messages := messages st ++ [AssistantMessage m];
                     iteration := iteration st;
                     final_weather_data := final_weather_data st;
                     auto_fetch_weather := auto;
                     events := tr |}) as Hspec.
    destruct (dispatch_tool_calls E _ _) as [st'|e tr'] eqn:Hdispatch; simpl in Hspec.
    + destruct Hspec as (_ & _ & extra & Hevents & Hfetch & _).
      destruct (dispatch_tool_calls_messages _ _ _ Hdispatch) as [results Hmessages].
      exists extra. simpl. split; [exact Hevents|]. split; [apply fetches_only_quiet, Hfetch|].
      split; [reflexivity|]. rewrite Hmessages. simpl.
      rewrite <- app_assoc. apply headed_app, Hhead.
    + destruct Hspec as (extra & -> & Hfetch).
      exists extra. simpl. split; [reflexivity|]. split; [apply fetches_only_quiet, Hfetch|exact I].
  - destruct (negb (requests_tools m)); [|apply Hfinalize].
    unfold fallback.
    destruct user_query as [q|]; [|apply Hfinalize].
    destruct (negb (String.eqb q "")
              && (negb (truthy weather_data) || (iteration st =? 0)%nat));
      [|apply Hfinalize].
    unfold fetch_weather, finalize.
    repeat case_match; simplify_eq/=;
      eexists; (split; [rewrite <- ?app_assoc; simpl; reflexivity|]);
      (split; [repeat constructor|]); try exact I.
    split; [reflexivity|]. eexists _, _. reflexivity.
Qed.

(** The requests a pass adds, relative to what the call has allowed so far. *)
Lemma loop_body_requests (st : loop_state) (allowed : bool)
    (pending : option (list chat_msg)) :
  headed language (messages st) ->
  (auto_fetch_weather st = true -> allowed = true) ->
  exists extra,
    trace_of (loop_body E weather_data user_query language st) = events st ++ extra
    /\ requests_follow E language allowed pending extra
    /\ match loop_body E weather_data user_query language st with
       | Continue st' =>
           headed language (messages st')
           /\ (auto_fetch_weather st' = true -> allowed_after allowed extra = true)
       | _ => True
       end.
Proof.
  intros Hhead Hallowed. unfold loop_body, create_completion.
  destruct (chat_completions_create E (List.length (events st)) (messages st)
              (auto_fetch_weather st)) as [response|tool_error].
  - destruct (react_quiet st (Ok response) (auto_fetch_weather st)
                (events st ++ [EvCompletion false (messages st) (auto_fetch_weather st)
                                 (Ok response)]) Hhead)
      as (extra & Htrace & Hquiet & Hnext).
    eexists. split; [rewrite Htrace, <- app_assoc; reflexivity|].
    split.
    + simpl. split; [exact Hallowed|]. split; [exact Hhead|].
      apply quiet_requests_follow, Hquiet.
    + destruct (react E weather_data user_query language st (Ok response) _ _);
        try exact I.
      destruct Hnext as [Hauto Hhead']. split; [exact Hhead'|].
      intros Htrue. simpl. rewrite quiet_allowed_after by exact Hquiet.
      rewrite Hauto in Htrue. rewrite Htrue, (Hallowed Htrue). reflexivity.
  - destruct (contains "tool" (lower (exn_str E tool_error))
              || contains "function" (lower (exn_str E tool_error))) eqn:Hmentions.
    + destruct (chat_completions_create E _ (messages st) false) as [response|e].
      * match goal with
        | |- context [react _ _ _ _ st ?answer ?auto ?tr] =>
            destruct (react_quiet st answer auto tr Hhead)
              as (extra & Htrace & Hquiet & Hnext)
        end.
        eexists. split; [rewrite Htrace, <- !app_assoc; reflexivity|].
        split.
        -- simpl. unfold mentions_tools. rewrite Hmentions. repeat split; try assumption.
           apply quiet_requests_follow, Hquiet.
        -- destruct (react E weather_data user_query language st _ _ _); try exact I.
           destruct Hnext as [Hauto Hhead']. split; [exact Hhead'|].
           rewrite Hauto. discriminate.
      * eexists. split; [simpl; rewrite <- !app_assoc; reflexivity|].
        split; [|exact I]. simpl. unfold mentions_tools. rewrite Hmentions.
        repeat split; assumption.
    + eexists. split; [simpl; reflexivity|]. split; [|exact I].
      simpl. repeat split; assumption.
Qed.

(** The requests of a whole call. *)
Lemma get_ai_suggestions_requests (tr : trace) (auto : bool) :
  exists new,
    snd (get_ai_suggestions E weather_data user_query language tr auto) = tr ++ new
    /\ requests_follow E language auto None new.
Proof.
  unfold get_ai_suggestions.
  destruct (build_prompt E weather_data user_query language) as [prompt|e];
    [|exists []; rewrite app_nil_r; split; [reflexivity|exact I]].
  assert (exists new,
            match while_loop E weather_data user_query language
                    (entry_state language prompt weather_data auto tr) with
            | Done (_, tr') => tr' = tr ++ new
            | Fail _ tr' => tr' = tr ++ new
            end
            /\ requests_follow E language auto None new) as (new & Hout & Hfollow).
  { apply (while_loop_rule E weather_data user_query language
             (fun st => exists new,
                  events st = tr ++ new
                  /\ requests_follow E language auto None new
                  /\ headed language (messages st)
                  /\ (auto_fetch_weather st = true -> allowed_after auto new = true))
             (fun out => exists new,
                  match out with
                  | Done (_, tr') => tr' = tr ++ new
                  | Fail _ tr' => tr' = tr ++ new
                  end
                  /\ requests_follow E language auto None new)).
    - intros st (new & Hevents & Hfollow & Hhead & Hallowed) _.
      destruct (loop_body_requests st (allowed_after auto new) None Hhead Hallowed)
        as (extra & Htrace & Hextra & Hnext).
      assert (requests_follow E language auto None (new ++ extra)) as Hall.
      { apply requests_follow_app; [exact Hfollow|].
        intros pending'.
        destruct (loop_body_requests st (allowed_after auto new) pending' Hhead Hallowed)
          as (extra' & Htrace' & Hextra' & _).
        rewrite Htrace in Htrace'. apply app_inv_head in Htrace'. subst extra'.
        exact Hextra'. }
      destruct (loop_body E weather_data user_query language st) as [st'|answer tr'|e tr'];
        simpl in Htrace.
      + destruct Hnext as [Hhead' Hallowed'].
        exists (new ++ extra). rewrite Htrace, Hevents, app_assoc.
        split; [reflexivity|]. split; [exact Hall|]. split; [exact Hhead'|].
        rewrite allowed_after_app. exact Hallowed'.
      + exists (new ++ extra). subst tr'. rewrite Hevents, app_assoc. split; [reflexivity|exact Hall].
      + exists (new ++ extra). subst tr'. rewrite Hevents, app_assoc. split; [reflexivity|exact Hall].
    - intros st (new & Hevents & Hfollow & _) _. exists new. split; assumption.
    - exists []. simpl. rewrite app_nil_r. split; [reflexivity|]. split; [exact I|].
      split; [eexists _, _; reflexivity|]. intros ->. reflexivity. }
  exists new. split; [|exact Hfollow].
  destruct (while_loop E weather_data user_query language _) as [[answer tr']|e tr'];
    simpl; exact Hout.
Qed.

End CallRequests.

(** X13.  Within a call, once a request has gone to the provider without the
    tool, every later request goes without it. *)
Theorem tools_stay_disabled (E : environment) (weather_data : json)
    (user_query : option string) (language : string) (tr : trace) (auto : bool)
    (pre post : trace) (retry : bool) (msgs : list chat_msg)
    (answer : result (list message)) :
  snd (get_ai_suggestions E weather_data user_query language tr auto)
  = tr ++ pre ++ EvCompletion retry msgs false answer :: post ->
  Forall (fun ev => offers_tools ev = false) post.
Proof.
  intros Hsnd.
  destruct (get_ai_suggestions_requests E weather_data user_query language tr auto)
    as (new & Hnew & Hfollow).
  rewrite Hnew in Hsnd. apply app_inv_head in Hsnd. subst new.
  apply requests_follow_split in Hfollow as [pending Hfollow].
  destruct retry; simpl in Hfollow.
  - destruct Hfollow as (_ & _ & _ & Hrest). eapply requests_follow_disabled, Hrest.
  - destruct Hfollow as (_ & _ & Hrest). rewrite andb_false_r in Hrest.
    eapply requests_follow_disabled, Hrest.
Qed.

Lemma tools_stay_disabled_witness :
  Forall (fun ev => offers_tools ev = false) (skipn 2 (snd Scene.refused_call)).
Proof.
  eapply (tools_stay_disabled Scene.refuses_tools Demo.tokyo (Some "weather in Osaka?")
            "en" [] true (firstn 1 (snd Scene.refused_call)) (skipn 2 (snd Scene.refused_call)) true).
  unfold Scene.refused_call. cbv. reflexivity.
Defined.

(** X14.  A call made with tool calls disabled never offers the tool, not even
    in a retry. *)
Theorem tools_never_offered_when_disabled (E : environment) (weather_data : json)
    (user_query : option string) (language : string) (tr : trace) :
  exists new,
    snd (get_ai_suggestions E weather_data user_query language tr false) = tr ++ new
    /\ Forall (fun ev => offers_tools ev = false) new.
Proof.
  destruct (get_ai_suggestions_requests E weather_data user_query language tr false)
    as (new & Hnew & Hfollow).
  exists new. split; [exact Hnew|]. eapply requests_follow_disabled, Hfollow.
Qed.

(** X15.  A retry is made without the tool, with the message list of the request
    that has just failed, and only after a failure whose text mentions tools
    or functions. *)
Theorem retry_follows_tool_failure (E : environment) (weather_data : json)
    (user_query : option string) (language : string) (tr : trace) (auto : bool)
    (pre post : trace) (msgs : list chat_msg) (with_tools : bool)
    (answer : result (list message)) :
  snd (get_ai_suggestions E weather_data user_query language tr auto)
  = tr ++ pre ++ EvCompletion true msgs with_tools answer :: post ->
  with_tools = false
  /\ exists pre' offered e,
       pre = pre' ++ [EvCompletion false msgs offered (Raise e)]
       /\ mentions_tools E e = true.
Proof.
  intros Hsnd.
  destruct (get_ai_suggestions_requests E weather_data user_query language tr auto)
    as (new & Hnew & Hfollow).
  rewrite Hnew in Hsnd. apply app_inv_head in Hsnd. subst new.
  apply requests_follow_retry in Hfollow as (-> & [[_ Hnone]|Hfailed]);
    [discriminate|]. split; [reflexivity|exact Hfailed].
Qed.

Lemma retry_follows_tool_failure_witness :
  exists pre' offered e msgs,
    firstn 1 (snd Scene.refused_call) = pre' ++ [EvCompletion false msgs offered (Raise e)]
    /\ mentions_tools Scene.refuses_tools e = true.
Proof.
  assert (exists msgs with_tools answer,
            snd Scene.refused_call
            = [] ++ firstn 1 (snd Scene.refused_call)
                 ++ EvCompletion true msgs with_tools answer :: skipn 2 (snd Scene.refused_call))
    as (msgs & with_tools & answer & Hsplit).
  { eexists _, _, _. unfold Scene.refused_call. cbv. reflexivity. }
  destruct (retry_follows_tool_failure Scene.refuses_tools Demo.tokyo
              (Some "weather in Osaka?") "en" [] true _ _ _ _ _ Hsplit)
    as (_ & pre' & offered & e & Hpre & Hmentions).
  exists pre', offered, e, msgs. split; assumption.
Defined.

(** X16.  A call sends at most six requests to the provider (two per round), and
    every one of them opens with the system instruction followed by a user
    message. *)
Theorem provider_requests_bound (E : environment) (weather_data : json)
    (user_query : option string) (language : string) (tr : trace) (auto : bool) :
  exists new,
    snd (get_ai_suggestions E weather_data user_query language tr auto) = tr ++ new
    /\ (List.length (List.filter is_completion new) <= 2 * max_iterations)%nat
    /\ Forall (fun ev => match ev with
                         | EvCompletion _ msgs _ _ => headed language msgs
                         | _ => True
                         end) new.
Proof.
  destruct (get_ai_suggestions_requests E weather_data user_query language tr auto)
    as (new & Hnew & Hfollow).
  destruct (get_ai_suggestions_trace E weather_data user_query language tr auto)
    as (new' & Hnew' & Hrounds & _).
  rewrite Hnew in Hnew'. apply app_inv_head in Hnew'. subst new'.
  exists new. split; [exact Hnew|]. split.
  - pose proof (requests_follow_count E language new auto None Hfollow) as Hcount.
    simpl in Hcount. lia.
  - apply List.Forall_forall. intros ev Hin.
    destruct ev as [retry msgs with_tools answer| | | |]; try exact I.
    eapply requests_follow_headed; eassumption.
Qed.

Lemma last_resolved_cases (initial : json) (evs : trace) :
  (last_resolved initial evs = initial /\ existsb resolves evs = false)
  \/ exists url, In (EvFetch url (Ok (last_resolved initial evs))) evs.
Proof.
  revert initial. induction evs as [|ev evs IH]; intros initial; [left; split; reflexivity|].
  unfold last_resolved in *. simpl.
  destruct ev as [| url [payload|e] | | |]; simpl.
  2: { destruct (IH payload) as [[Hsame _]|[url' Hin]].
       - right. exists url. left. rewrite Hsame. reflexivity.
       - right. exists url'. right. exact Hin. }
  all: destruct (IH initial) as [[Hsame Hnone]|[url' Hin]];
    [left; split; assumption|right; exists url'; right; exact Hin].
Qed.

Lemma entry_reply_provenance (E : environment) (weather_data : json)
    (user_query : option string) (language prompt : string) (tr : trace) (auto : bool) :
  exists new,
    match while_loop E weather_data user_query language
            (entry_state language prompt weather_data auto tr) with
    | Done (answer, tr') =>
        tr' = tr ++ new
        /\ (sg_weather_data answer = weather_data
            \/ exists url, In (EvFetch url (Ok (sg_weather_data answer))) new)
        /\ (existsb resolves new = true \/ sg_weather_data answer = weather_data)
    | Fail _ tr' => tr' = tr ++ new
    end.
Proof.
  pose proof (while_loop_trace E weather_data user_query language tr _
                (entry_invariant weather_data user_query language prompt auto tr))
    as (new & Hout & _).
  exists new.
  destruct (while_loop E weather_data user_query language _) as [[answer tr']|e tr'];
    [|exact Hout].
  destruct Hout as [-> ->]. split; [reflexivity|].
  destruct (last_resolved_cases weather_data new) as [[Hsame Hnone]|Hin].
  - split; [left; exact Hsame|right; exact Hsame].
  - split; [right; exact Hin|]. left. destruct Hin as [url Hin].
    apply existsb_exists. eexists. split; [exact Hin|reflexivity].
Qed.

(** X17.  The weather data of a reply is the caller's or a payload a fetch of
    this call returned, and it is the caller's when no fetch succeeded.  The
    call raises only when the caller's own weather data cannot be rendered,
    and then before anything is requested. *)
Theorem reply_weather_provenance (E : environment) (weather_data : json)
    (user_query : option string) (language : string) (tr : trace) (auto : bool) :
  match fst (get_ai_suggestions E weather_data user_query language tr auto) with
  | Ok reply =>
      exists new,
        snd (get_ai_suggestions E weather_data user_query language tr auto) = tr ++ new
        /\ (sg_weather_data reply = weather_data
            \/ exists url, In (EvFetch url (Ok (sg_weather_data reply))) new)
        /\ (existsb resolves new = true \/ sg_weather_data reply = weather_data)
  | Raise e =>
      snd (get_ai_suggestions E weather_data user_query language tr auto) = tr
      /\ truthy weather_data = true
      /\ describe_weather E "Current weather in " weather_data = Raise e
  end.
Proof.
  unfold get_ai_suggestions, build_prompt.
  destruct (truthy weather_data) eqn:Htruthy; simpl;
    [destruct (describe_weather E "Current weather in " weather_data) as [text|e] eqn:Hdescribe;
     simpl; [|repeat split]|].
  all: match goal with
       | |- context [while_loop _ _ _ _ (entry_state _ ?prompt _ _ _)] =>
           destruct (entry_reply_provenance E weather_data user_query language prompt tr auto)
             as (new & Hout)
       end.
  all: destruct (while_loop E weather_data user_query language _) as [[answer tr']|e tr'];
    simpl; exists new.
  all: try (destruct Hout as (-> & Hfrom & Hwhen); repeat split; assumption).
  all: subst tr'; split; [reflexivity|]; split; [left; reflexivity|right; reflexivity].
Qed.

Lemma dispatch_tool_call_result (E : environment) (st : loop_state) (tc : tool_call) :
  decodes E tc ->
  exists st',
    dispatch_tool_call E st tc = Done st'
    /\ if asks_weather tc
       then exists entry, messages st' = messages st ++ [entry] /\ answers tc entry
       else st' = st.
Proof.
  intros Hdecodes. unfold dispatch_tool_call, asks_weather.
  destruct (String.eqb (tc_name tc) "get_weather") eqn:Hname; [|eauto].
  apply String.eqb_eq in Hname. destruct (Hdecodes Hname) as [fields ->]. simpl.
  destruct (fetch_weather E (events st) _) as [[fetched|e] tr];
    eexists; (split; [reflexivity|]); simpl; eexists; (split; [reflexivity|]);
    rewrite Hname; eexists; reflexivity.
Qed.

(** X18.  When the arguments decode, the dispatch appends one tool result for each
    [get_weather] call, in order and tagged with the call's identifier;
    calls of any other tool get no result. *)
Theorem tool_results_match_calls (E : environment) (tcs : list tool_call) (st : loop_state) :
  Forall (decodes E) tcs ->
  exists st' results,
    dispatch_tool_calls E st tcs = Done st'
    /\ messages st' = messages st ++ results
    /\ Forall2 answers (List.filter asks_weather tcs) results.
Proof.
  intros Hdecode. revert st.
  induction Hdecode as [|tc tcs Htc _ IH]; intros st; simpl.
  - exists st, []. rewrite app_nil_r. repeat split. constructor.
  - destruct (dispatch_tool_call_result E st tc Htc) as (st1 & -> & Hone).
    destruct (IH st1) as (st2 & results & -> & Hmessages & Hresults).
    destruct (asks_weather tc).
    + destruct Hone as (entry & Hentry & Hanswers).
      exists st2, (entry :: results). split; [reflexivity|].
      rewrite Hmessages, Hentry, <- app_assoc. split; [reflexivity|].
      constructor; assumption.
    + subst st1. exists st2, results. repeat split; assumption.
Qed.

Lemma tool_results_match_calls_witness :
  exists st' results,
    dispatch_tool_calls Demo.always_asks (entry_state "en" "" JNull true []) Scene.mixed_calls
    = Done st'
    /\ messages st' = messages (entry_state "en" "" JNull true []) ++ results
    /\ Forall2 answers [Demo.weather_call "call_b" "Osaka"] results.
Proof.
  apply (tool_results_match_calls Demo.always_asks Scene.mixed_calls).
  repeat constructor.
  - intros Hname. discriminate Hname.
  - intros _. eexists. reflexivity.
Defined.

(** X19.  A [get_weather] call whose arguments hold no location is not rejected:
    the weather is fetched for the text None, and when that fails the tool
    result says so and the weather data is kept. *)
Theorem missing_location_fetches_none (E : environment) (st : loop_state) (tc : tool_call)
    (fields : list (string * json)) :
  tc_name tc = "get_weather" ->
  json_loads E (tc_arguments tc) = Ok (JObj fields) ->
  dict_get "location" fields = None ->
  let url := "http://api.weatherapi.com/v1/current.json?key=" +:+ WEATHER_API_KEY E
             +:+ "&q=None&aqi=yes" in
  exists st',
    dispatch_tool_call E st tc = Done st'
    /\ events st' = events st ++ [EvFetch url (requests_get E (List.length (events st)) url)]
    /\ (is_ok (requests_get E (List.length (events st)) url) = false ->
        final_weather_data st' = final_weather_data st
        /\ exists detail,
             messages st'
             = messages st
               ++ [ToolResult (tc_id tc) "get_weather"
                     ("Error fetching weather for None: "
                      +:+ exn_str E (HTTPException 400 detail))]).
Proof.
  intros Hname Hloads Hmissing url. unfold dispatch_tool_call, fetch_weather, tool_error_text.
  rewrite Hname, Hloads. simpl. rewrite Hmissing. simpl.
  change (weather_url E JNull) with url.
  destruct (requests_get E (List.length (events st)) url) as [payload|e]; simpl;
    eexists; (split; [reflexivity|]); (split; [reflexivity|]).
  - discriminate.
  - intros _. split; [reflexivity|]. eexists. reflexivity.
Qed.

Lemma missing_location_fetches_none_witness :
  exists st',
    dispatch_tool_call Scene.no_place (entry_state "en" "" JNull true [])
      {| tc_id := "call_1"; tc_name := "get_weather"; tc_arguments := "{}" |} = Done st'
    /\ events st'
       = [EvFetch "http://api.weatherapi.com/v1/current.json?key=key&q=None&aqi=yes"
            (Raise (LibraryError "400 Client Error: Bad Request for url"))].
Proof.
  destruct (missing_location_fetches_none Scene.no_place (entry_state "en" "" JNull true [])
              {| tc_id := "call_1"; tc_name := "get_weather"; tc_arguments := "{}" |} [])
    as (st' & Hdone & Hevents & _); try reflexivity.
  exists st'. split; [exact Hdone|exact Hevents].
Defined.

Section Calls.
Context (E : environment) (weather_data : json) (language : string).



(** A call without weather data, a query that names a place and a model
    that never asks for the tool. *)
Lemma loop_body_falls_back (st : loop_state) (q place : string) :
  truthy weather_data = false ->
  q <> "" ->
  extract_location_from_query E q language = Some place ->
  place <> "" ->
  (forall t msgs with_tools, exists m rest,
      chat_completions_create E t msgs with_tools = Ok (m :: rest)
      /\ requests_tools m = false) ->
  (forall t, exists fetched,
      requests_get E t (weather_url E (JStr place)) = Ok fetched
      /\ has_provider_fields fetched = true) ->
  exists st', loop_body E weather_data (Some q) language st = Continue st'.
Proof.
  intros Hmissing Hq Hextract Hplace Htalks Hknown.
  unfold loop_body, create_completion.
  destruct (Htalks (List.length (events st)) (messages st) (auto_fetch_weather st))
    as (m & rest & -> & Hplain).
  unfold react. rewrite Hplain. simpl.
  unfold fallback. rewrite Hmissing, Hextract. simpl.
  apply String.eqb_neq in Hq, Hplace. rewrite Hq, Hplace. simpl.
  unfold fetch_weather.
  match goal with
  | |- context [requests_get E ?t _] => destruct (Hknown t) as (fetched & -> & Hfields)
  end.
  destruct (describe_weather_ok E "Weather in " fetched Hfields) as [text ->].
  eauto.
Qed.

(** X21.  In a call without weather data, when the query names a place the
    weather provider knows and the model never asks for the tool, the
    fallback restarts the conversation in every round: the call ends with
    the maximum-iterations content, not with the model's text. *)
Theorem fallback_repeats_without_weather (q place : string) (tr : trace) (auto : bool) :
  truthy weather_data = false ->
  q <> "" ->
  extract_location_from_query E q language = Some place ->
  place <> "" ->
  (forall t msgs with_tools, exists m rest,
      chat_completions_create E t msgs with_tools = Ok (m :: rest)
      /\ requests_tools m = false) ->
  (forall t, exists fetched,
      requests_get E t (weather_url E (JStr place)) = Ok fetched
      /\ has_provider_fields fetched = true) ->
  exists new,
    get_ai_suggestions E weather_data (Some q) language tr auto
    = (Ok {| sg_content := Some max_iterations_content;
             sg_weather_data := last_resolved weather_data new |}, tr ++ new)
    /\ model_rounds new = max_iterations
    /\ existsb resolves new = true.
Proof.
  intros Hmissing Hq Hextract Hplace Htalks Hknown.
  unfold get_ai_suggestions, build_prompt. rewrite Hmissing. simpl.
  match goal with
  | |- context [while_loop _ _ _ _ ?st0] => set (entry := st0)
  end.
  assert (exists new,
            while_loop E weather_data (Some q) language entry
            = Done ({| sg_content := Some max_iterations_content;
                       sg_weather_data := last_resolved weather_data new |}, tr ++ new)
            /\ model_rounds new = max_iterations
            /\ existsb resolves new = true) as (new & -> & Hrounds & Hfetched).
  { apply (while_loop_rule E weather_data (Some q) language
             (fun st => exists new,
                  events st = tr ++ new
                  /\ model_rounds new = iteration st
                  /\ (iteration st <= max_iterations)%nat
                  /\ final_weather_data st = last_resolved weather_data new
                  /\ (iteration st <> 0%nat -> existsb resolves new = true))).
    - intros st (new & Hevents & Hrounds & Hbound & Hfinal & Hfetched) Hlt.
      destruct (loop_body_falls_back st q place Hmissing Hq Hextract Hplace Htalks Hknown)
        as [st' Hbody].
      pose proof (loop_body_spec E weather_data (Some q) language st false (fun _ => eq_refl))
        as (extra & Htrace & Hextra & _ & Hfinal').
      rewrite Hbody in *. simpl in *.
      exists (new ++ extra). rewrite Htrace, Hevents, app_assoc.
      split; [reflexivity|]. rewrite model_rounds_app, Hrounds, Hextra.
      pose proof (loop_body_iteration E weather_data (Some q) language st st' Hbody) as Hnext.
      split; [lia|]. split; [lia|].
      split; [rewrite Hfinal', Hfinal, last_resolved_app; reflexivity|].
      intros _. rewrite existsb_app. apply orb_true_iff. right.
      (* the pass has fetched *)
      revert Hbody Htrace. unfold loop_body, create_completion.
      destruct (Htalks (List.length (events st)) (messages st) (auto_fetch_weather st))
        as (m & rest & -> & Hplain).
      unfold react. rewrite Hplain. simpl.
      unfold fallback. rewrite Hmissing, Hextract. simpl.
      pose proof Hq as Hq'. pose proof Hplace as Hplace'.
      apply String.eqb_neq in Hq', Hplace'. rewrite Hq', Hplace'. simpl.
      unfold fetch_weather.
      match goal with
      | |- context [requests_get E ?t _] => destruct (Hknown t) as (fetched & -> & Hfields)
      end.
      destruct (describe_weather_ok E "Weather in " fetched Hfields) as [text ->].
      intros [= <-]. simpl. rewrite <- !app_assoc. intros <-%app_inv_head.
      reflexivity.
    - intros st (new & Hevents & Hrounds & Hbound & Hfinal & Hfetched) Hge.
      exists new. unfold max_iterations_reply. rewrite Hevents, Hfinal.
      split; [reflexivity|]. split; [lia|]. apply Hfetched. unfold max_iterations in Hge. lia.
    - exists []. subst entry. simpl. rewrite app_nil_r. repeat split.
      + unfold max_iterations. lia.
      + intros Hne. contradiction. }
  exists new. repeat split; assumption.
Qed.

End Calls.


Lemma fallback_repeats_witness :
  fst (get_ai_suggestions Scene.only_talks JNull (Some "weather in Osaka?") "en" [] true)
  = Ok {| sg_content := Some max_iterations_content; sg_weather_data := Demo.osaka |}.
Proof.
  assert (forall t msgs with_tools, exists m rest,
            chat_completions_create Scene.only_talks t msgs with_tools = Ok (m :: rest)
            /\ requests_tools m = false) as Htalks.
  { intros t msgs with_tools. eexists _, _. split; reflexivity. }
  assert (forall t, exists fetched,
            requests_get Scene.only_talks t (weather_url Scene.only_talks (JStr "Osaka"))
            = Ok fetched
            /\ has_provider_fields fetched = true) as Hknown.
  { intros t. eexists. split; reflexivity. }
  destruct (fallback_repeats_without_weather Scene.only_talks JNull "en"
              "weather in Osaka?" "Osaka" [] true eq_refl ltac:(discriminate) eq_refl
              ltac:(discriminate) Htalks Hknown) as (new & Hcall & _ & _).
  assert (new = snd (get_ai_suggestions Scene.only_talks JNull (Some "weather in Osaka?")
                       "en" [] true)) as Hnew by (rewrite Hcall; reflexivity).
  rewrite Hcall. simpl. rewrite Hnew. vm_compute. reflexivity.
Defined.
